(** * Blob: a line-oriented text editor (src/blob.c)

    A shallow embedding of the editor's buffer code.  The C program keeps
    the document as a doubly linked list of [struct line], each line owning
    a doubly linked list of [struct character].  Both kinds of node live in
    a heap addressed by locations; pointers are either indeterminate (the
    contents of fresh [malloc] memory), [NULL], or the address of a block.
    A block is large enough for a whole struct, or it has the size the
    program asks [malloc] for, that of a pointer, and then holds the first
    member only.  Every block the program allocates is of the second
    kind; the functions that allocate nothing are studied on buffers of
    whole structs, which they are handed.  Every function of the source
    becomes a function on an explicit machine state, in a result monad
    that separates a normal return from a call to [exit], from undefined
    behaviour (an access outside a block among others) and from a
    traversal that never ends.

    The file has four parts: the program, the vocabulary of the
    specification (what it means for a state to hold a Line Buffer), the
    theorems, which end with one theorem per property of the
    specification, and further properties of the code: loading, saving,
    printing, freeing, moving, deleting, what a command line keeps, and
    how an insertion session ends. *)

From stdpp Require Import gmap strings list fin_maps.
From Stdlib Require Import ZArith Ascii.

Local Open Scope Z_scope.
Local Open Scope list_scope.

(** * Part I: the program *)

(** ** Constants *)

Definition EXIT_FAILURE : Z := 1.

(** ** Characters and strings *)

Definition nl : ascii := "010"%char.
Definition NUL : ascii := "000"%char.
Definition space : ascii := " "%char.

(** [*src] for a NUL-terminated array: past the stored bytes sits the
    terminator. *)
Definition deref_char (src : list ascii) : ascii :=
  match src with
  | [] => NUL
  | x :: _ => x
  end.

(** The loop guard [*s != '\n' && *s != '\0'], negated. *)
Definition at_terminator (src : list ascii) : bool :=
  Ascii.eqb (deref_char src) nl || Ascii.eqb (deref_char src) NUL.

(** ** Memory *)

Abbreviation loc := positive.

Inductive ptr := Undef | NULL | Ptr (a : loc).

#[global] Instance ptr_eq_dec : EqDecision ptr.
Proof. solve_decision. Defined.

Record character := Character {
  c : option ascii;      (* None: not yet written *)
  c_next : ptr;
  c_prev : ptr
}.

Record line := Line {
  data : ptr;
  next : ptr;
  prev : ptr
}.

(** A file of the file system.  [Orphan] marks a path at which nothing
    exists and nothing can be created (a missing or read-only directory);
    a path absent from the map is missing but can be created. *)
Inductive fnode :=
| Regular (readable writable : bool) (contents : list ascii)
| Orphan.

Inductive FILE := Stdout | Stderr | OnDisk (fname : string).

Record state := State {
  mem_character : gmap loc character;        (* blocks that hold a whole struct character *)
  mem_line : gmap loc line;                  (* blocks that hold a whole struct line *)
  small_character : gmap loc (option ascii); (* pointer-sized blocks: the member c alone *)
  small_line : gmap loc ptr;                 (* pointer-sized blocks: the member data alone *)
  brk : loc;                       (* first address never handed out *)
  stop_insertion : Z;              (* sig_atomic_t stop_insertion *)
  sigint : list bool;              (* SIGINT arrivals, one entry per read of the flag *)
  stdin : list (list ascii);       (* what successive getline(stdin) calls return *)
  stdout : list ascii;
  stderr : list ascii;
  fs : gmap string fnode;
  start : ptr;                     (* main's [start] *)
  lines : ptr                      (* main's [lines]: the current line *)
}.

Definition set_mem_character (v : gmap loc character) (st : state) : state :=
  State v (mem_line st) (small_character st) (small_line st)
        (brk st) (stop_insertion st) (sigint st) (stdin st) (stdout st)
        (stderr st) (fs st) (start st) (lines st).
Definition set_mem_line (v : gmap loc line) (st : state) : state :=
  State (mem_character st) v (small_character st) (small_line st)
        (brk st) (stop_insertion st) (sigint st) (stdin st) (stdout st)
        (stderr st) (fs st) (start st) (lines st).
Definition set_small_character (v : gmap loc (option ascii)) (st : state) : state :=
  State (mem_character st) (mem_line st) v (small_line st)
        (brk st) (stop_insertion st) (sigint st) (stdin st) (stdout st)
        (stderr st) (fs st) (start st) (lines st).
Definition set_small_line (v : gmap loc ptr) (st : state) : state :=
  State (mem_character st) (mem_line st) (small_character st) v
        (brk st) (stop_insertion st) (sigint st) (stdin st) (stdout st)
        (stderr st) (fs st) (start st) (lines st).
Definition set_brk (v : loc) (st : state) : state :=
  State (mem_character st) (mem_line st) (small_character st) (small_line st)
        v (stop_insertion st) (sigint st) (stdin st) (stdout st)
        (stderr st) (fs st) (start st) (lines st).
Definition set_stop_insertion (v : Z) (st : state) : state :=
  State (mem_character st) (mem_line st) (small_character st) (small_line st)
        (brk st) v (sigint st) (stdin st) (stdout st)
        (stderr st) (fs st) (start st) (lines st).
Definition set_sigint (v : list bool) (st : state) : state :=
  State (mem_character st) (mem_line st) (small_character st) (small_line st)
        (brk st) (stop_insertion st) v (stdin st) (stdout st)
        (stderr st) (fs st) (start st) (lines st).
Definition set_stdin (v : list (list ascii)) (st : state) : state :=
  State (mem_character st) (mem_line st) (small_character st) (small_line st)
        (brk st) (stop_insertion st) (sigint st) v (stdout st)
        (stderr st) (fs st) (start st) (lines st).
Definition set_stdout (v : list ascii) (st : state) : state :=
  State (mem_character st) (mem_line st) (small_character st) (small_line st)
        (brk st) (stop_insertion st) (sigint st) (stdin st) v
        (stderr st) (fs st) (start st) (lines st).
Definition set_stderr (v : list ascii) (st : state) : state :=
  State (mem_character st) (mem_line st) (small_character st) (small_line st)
        (brk st) (stop_insertion st) (sigint st) (stdin st) (stdout st)
        v (fs st) (start st) (lines st).
Definition set_fs (v : gmap string fnode) (st : state) : state :=
  State (mem_character st) (mem_line st) (small_character st) (small_line st)
        (brk st) (stop_insertion st) (sigint st) (stdin st) (stdout st)
        (stderr st) v (start st) (lines st).
Definition set_start (v : ptr) (st : state) : state :=
  State (mem_character st) (mem_line st) (small_character st) (small_line st)
        (brk st) (stop_insertion st) (sigint st) (stdin st) (stdout st)
        (stderr st) (fs st) v (lines st).
Definition set_lines (v : ptr) (st : state) : state :=
  State (mem_character st) (mem_line st) (small_character st) (small_line st)
        (brk st) (stop_insertion st) (sigint st) (stdin st) (stdout st)
        (stderr st) (fs st) (start st) v.

Arguments set_mem_character _ _ /.
Arguments set_mem_line _ _ /.
Arguments set_small_character _ _ /.
Arguments set_small_line _ _ /.
Arguments set_brk _ _ /.
Arguments set_stop_insertion _ _ /.
Arguments set_sigint _ _ /.
Arguments set_stdin _ _ /.
Arguments set_stdout _ _ /.
Arguments set_stderr _ _ /.
Arguments set_fs _ _ /.
Arguments set_start _ _ /.
Arguments set_lines _ _ /.

(** ** Results *)

Inductive res (A : Type) : Type :=
| Ret (a : A)          (* the function returns *)
| Exit (status : Z) (st : state)   (* exit(status) was called, in state st *)
| Fault                (* undefined behaviour: an access outside a block or
                          through a bad pointer, an indeterminate read *)
| Diverge.             (* the traversal ran out of fuel: a cyclic list *)
Arguments Ret {A} a.
Arguments Exit {A} status st.
Arguments Fault {A}.
Arguments Diverge {A}.

#[global] Instance res_ret : MRet res := @Ret.
#[global] Instance res_bind : MBind res := λ A B k m,
  match m with
  | Ret a => k a
  | Exit s st => Exit s st
  | Fault => Fault
  | Diverge => Diverge
  end.

(** ** Allocation and access *)

(** [ALLOC_LL(t)] is [(t) MALLOC(sizeof(t))], and every use of it passes a
    pointer type ([struct character *], [struct line *]): the block it
    returns has the size of a pointer.  That many bytes hold the first
    member of the struct ([c], one byte; [data], a pointer) and nothing of
    the second, a pointer that starts behind the first member.  So the
    block is kept with the one member it holds, indeterminate at first;
    [next] and [prev] of it lie outside the block.  Memory is taken to be
    unbounded (the [exit] of [MALLOC] on a failed [malloc] is not modelled)
    and addresses are never reused. *)
Definition ALLOC_LL_character (st : state) : ptr * state :=
  (Ptr (brk st),
   set_brk (Pos.succ (brk st))
     (set_small_character (<[brk st := None]> (small_character st)) st)).

Definition ALLOC_LL_line (st : state) : ptr * state :=
  (Ptr (brk st),
   set_brk (Pos.succ (brk st))
     (set_small_line (<[brk st := Undef]> (small_line st)) st)).

(** An access to a struct through [p]: to any of its members.  The block
    has to hold the whole struct; on a pointer-sized block the members
    behind the first are out of bounds. *)
Definition load_character (p : ptr) (st : state) : res character :=
  match p with
  | Ptr a => match mem_character st !! a with Some x => Ret x | None => Fault end
  | _ => Fault
  end.

Definition store_character (p : ptr) (f : character → character) (st : state) : res state :=
  match p with
  | Ptr a =>
      match mem_character st !! a with
      | Some x => Ret (set_mem_character (<[a := f x]> (mem_character st)) st)
      | None => Fault
      end
  | _ => Fault
  end.

Definition load_line (p : ptr) (st : state) : res line :=
  match p with
  | Ptr a => match mem_line st !! a with Some x => Ret x | None => Fault end
  | _ => Fault
  end.

Definition store_line (p : ptr) (f : line → line) (st : state) : res state :=
  match p with
  | Ptr a =>
      match mem_line st !! a with
      | Some x => Ret (set_mem_line (<[a := f x]> (mem_line st)) st)
      | None => Fault
      end
  | _ => Fault
  end.

(** An access to the first member alone ([p->c], [p->data]): in bounds on
    every block. *)
Definition store_c (p : ptr) (x : ascii) (st : state) : res state :=
  match p with
  | Ptr a =>
      match mem_character st !! a with
      | Some n => Ret (set_mem_character (<[a := Character (Some x) (c_next n) (c_prev n)]>
                                            (mem_character st)) st)
      | None =>
          match small_character st !! a with
          | Some _ => Ret (set_small_character (<[a := Some x]> (small_character st)) st)
          | None => Fault
          end
      end
  | _ => Fault
  end.

Definition load_data (p : ptr) (st : state) : res ptr :=
  match p with
  | Ptr a =>
      match mem_line st !! a with
      | Some n => Ret (data n)
      | None => match small_line st !! a with Some d => Ret d | None => Fault end
      end
  | _ => Fault
  end.

Definition store_data (p : ptr) (d : ptr) (st : state) : res state :=
  match p with
  | Ptr a =>
      match mem_line st !! a with
      | Some n => Ret (set_mem_line (<[a := Line d (next n) (prev n)]> (mem_line st)) st)
      | None =>
          match small_line st !! a with
          | Some _ => Ret (set_small_line (<[a := d]> (small_line st)) st)
          | None => Fault
          end
      end
  | _ => Fault
  end.

(** [free(p)]: a no-op on [NULL], undefined on anything not allocated. *)
Definition free_character (p : ptr) (st : state) : res state :=
  match p with
  | NULL => Ret st
  | Ptr a =>
      match mem_character st !! a with
      | Some _ => Ret (set_mem_character (delete a (mem_character st)) st)
      | None =>
          match small_character st !! a with
          | Some _ => Ret (set_small_character (delete a (small_character st)) st)
          | None => Fault
          end
      end
  | Undef => Fault
  end.

Definition free_line (p : ptr) (st : state) : res state :=
  match p with
  | NULL => Ret st
  | Ptr a =>
      match mem_line st !! a with
      | Some _ => Ret (set_mem_line (delete a (mem_line st)) st)
      | None =>
          match small_line st !! a with
          | Some _ => Ret (set_small_line (delete a (small_line st)) st)
          | None => Fault
          end
      end
  | Undef => Fault
  end.

(** [p == NULL]; reading an indeterminate pointer is undefined. *)
Definition is_null (p : ptr) : res bool :=
  match p with
  | Undef => Fault
  | NULL => Ret true
  | Ptr _ => Ret false
  end.

Definition with_c_next (p : ptr) (n : character) : character :=
  Character (c n) p (c_prev n).
Definition with_c_prev (p : ptr) (n : character) : character :=
  Character (c n) (c_next n) p.
Definition with_next (p : ptr) (n : line) : line := Line (data n) p (prev n).
Definition with_prev (p : ptr) (n : line) : line := Line (data n) (next n) p.

(** The macro [APPEND_LL(x)] at the two types it is used at. *)
Definition APPEND_LL_character (x : ptr) (st : state) : res state :=
  let '(fresh, st) := ALLOC_LL_character st in
  st ← store_character x (with_c_next fresh) st;
  n ← load_character x st;
  st ← store_character (c_next n) (with_c_prev x) st;
  n ← load_character x st;
  store_character (c_next n) (with_c_next NULL) st.

Definition APPEND_LL_line (x : ptr) (st : state) : res state :=
  let '(fresh, st) := ALLOC_LL_line st in
  st ← store_line x (with_next fresh) st;
  n ← load_line x st;
  st ← store_line (next n) (with_prev x) st;
  n ← load_line x st;
  store_line (next n) (with_next NULL) st.

(** ** charray_to_line *)

(** The [for] loop of [charray_to_line]: returns where [src] and [idx]
    stand when the guard fails. *)
Fixpoint charray_to_line_loop (src : list ascii) (idx : ptr) (st : state)
  : res (list ascii * ptr * state) :=
  match src with
  | [] => Ret (src, idx, st)
  | x :: src' =>
      if Ascii.eqb x nl || Ascii.eqb x NUL then Ret (src, idx, st)
      else
        st ← store_c idx x st;
        st ← APPEND_LL_character idx st;
        n ← load_character idx st;
        charray_to_line_loop src' (c_next n) st
  end.

(** The [if]/[else] after the loop. *)
Definition charray_to_line_finish (src : list ascii) (idx : ptr) (st : state) : res state :=
  if at_terminator src then
    st ← store_c idx space st;
    store_character idx (with_c_next NULL) st
  else
    n ← load_character idx st;
    let idx := c_prev n in
    n ← load_character idx st;
    st ← free_character (c_next n) st;
    store_character idx (with_c_next NULL) st.

Definition charray_to_line (dest : ptr) (src : list ascii) (st : state) : res state :=
  let '(chars, st) := ALLOC_LL_character st in
  '(src, idx, st) ← charray_to_line_loop src chars st;
  st ← charray_to_line_finish src idx st;
  store_data dest chars st.

(** ** lines_to_charray *)

(** A [char] buffer from [malloc]: every cell indeterminate until written. *)
Abbreviation buffer := (list (option ascii)).

Definition MALLOC_buffer (n : nat) : buffer := replicate n None.

Definition buffer_store (b : buffer) (i : nat) (x : ascii) : res buffer :=
  if decide (i < length b)%nat then Ret (<[i := Some x]> b) else Fault.

(** The bytes of a buffer read as a C string (what ["%s"] prints). *)
Fixpoint c_str (b : buffer) : res (list ascii) :=
  match b with
  | [] => Fault
  | None :: _ => Fault
  | Some x :: b' =>
      if Ascii.eqb x NUL then Ret [] else s ← c_str b'; Ret (x :: s)
  end.

(** [while (idx != NULL) { buffer_size++; idx = idx->next; }] *)
Fixpoint lines_to_charray_count (fuel : nat) (idx : ptr) (buffer_size : nat) (st : state)
  : res nat :=
  match fuel with
  | O => Diverge
  | S fuel =>
      z ← is_null idx;
      if (z : bool) then Ret buffer_size
      else n ← load_character idx st;
           lines_to_charray_count fuel (c_next n) (S buffer_size) st
  end.

(** [for (size_t i = 0; idx != NULL; i++) { buffer[i] = idx->c; idx = idx->next; }] *)
Fixpoint lines_to_charray_copy (fuel : nat) (idx : ptr) (i : nat) (b : buffer) (st : state)
  : res buffer :=
  match fuel with
  | O => Diverge
  | S fuel =>
      z ← is_null idx;
      if (z : bool) then Ret b
      else n ← load_character idx st;
           match c n with
           | None => Fault
           | Some x =>
               b ← buffer_store b i x;
               lines_to_charray_copy fuel (c_next n) (S i) b st
           end
  end.

(** A list without a cycle visits each node at most once, so one more step
    than there are nodes is fuel enough. *)
Definition character_fuel (st : state) : nat := S (size (mem_character st)).
Definition line_fuel (st : state) : nat := S (size (mem_line st)).

Definition lines_to_charray (line : ptr) (st : state) : res buffer :=
  chars ← load_data line st;
  buffer_size ← lines_to_charray_count (character_fuel st) chars 0%nat st;
  let b := MALLOC_buffer (buffer_size + 2) in
  b ← lines_to_charray_copy (character_fuel st) chars 0%nat b st;
  b ← buffer_store b buffer_size nl;
  buffer_store b (buffer_size + 1) NUL.

(** ** Output *)

Definition usage_text : list ascii := String.list_ascii_of_string
  "
Blob | TSOA, 2023
A line-oriented text editor, which aims to be simple and effective.
As of now, it has only been tested on GNU/Linux.

'n' (next): go to the next line.
'b' (back): go to the previous line.
'p' (print): print the current line.
'i' (insert): insert a single line, after the current line.
'l' (list): list the contents of the file.
'd' (delete): delete the current line.
'q' (quit): quit the editor.
'w' (write): write buffer to file.
'h' (help): print this message.

You can string together commands, like so: 'npi' (next, print, insert).
".

(** [fputs]/[fprintf("%s")]/[putc] on a stream; their results are ignored
    by the source and so are not modelled. *)
Definition fputs (s : list ascii) (file : FILE) (st : state) : res state :=
  match file with
  | Stdout => Ret (set_stdout (stdout st ++ s) st)
  | Stderr => Ret (set_stderr (stderr st ++ s) st)
  | OnDisk fname =>
      match fs st !! fname with
      | Some (Regular r w contents) =>
          Ret (set_fs (<[fname := Regular r w (contents ++ s)]> (fs st)) st)
      | _ => Fault
      end
  end.

Definition usage (st : state) : res state := fputs usage_text Stderr st.

Fixpoint print_chars_loop (fuel : nat) (chars : ptr) (st : state) : res state :=
  match fuel with
  | O => Diverge
  | S fuel =>
      z ← is_null chars;
      if (z : bool) then Ret st
      else n ← load_character chars st;
           match c n with
           | None => Fault
           | Some x =>
               st ← fputs [x] Stdout st;
               print_chars_loop fuel (c_next n) st
           end
  end.

Definition print_chars (chars : ptr) (st : state) : res state :=
  print_chars_loop (character_fuel st) chars st.

Definition print_line (line : ptr) (st : state) : res state :=
  z ← is_null line;
  st ← (if (z : bool) then Ret st
        else chars ← load_data line st; print_chars chars st);
  fputs [nl] Stdout st.

(** ** Destruction *)

Fixpoint destroy_chars_loop (fuel : nat) (chars : ptr) (st : state) : res state :=
  match fuel with
  | O => Diverge
  | S fuel =>
      z ← is_null chars;
      if (z : bool) then Ret st
      else n ← load_character chars st;
           let tmp := c_next n in
           st ← free_character chars st;
           destroy_chars_loop fuel tmp st
  end.

Definition destroy_chars (chars : ptr) (st : state) : res state :=
  destroy_chars_loop (character_fuel st) chars st.

Definition destroy_line (line : ptr) (st : state) : res state :=
  chars ← load_data line st;
  st ← destroy_chars chars st;
  free_line line st.

Fixpoint destroy_lines_loop (fuel : nat) (lines : ptr) (st : state) : res state :=
  match fuel with
  | O => Diverge
  | S fuel =>
      z ← is_null lines;
      if (z : bool) then Ret st
      else n ← load_line lines st;
           let tmp := next n in
           st ← destroy_line lines st;
           destroy_lines_loop fuel tmp st
  end.

Definition destroy_lines (lines : ptr) (st : state) : res state :=
  destroy_lines_loop (line_fuel st) lines st.

(** ** Files *)

Definition ENOENT : Z := 2.
Definition EACCES : Z := 13.

(** What successive [getline] calls return on a stream holding [s]: each
    line with its newline, and a last line without one if the stream does
    not end in a newline.  [cur] holds the bytes of the line being read,
    newest first. *)
Fixpoint getlines (cur s : list ascii) : list (list ascii) :=
  match s with
  | [] => match cur with [] => [] | _ => [rev cur] end
  | x :: s' =>
      if Ascii.eqb x nl then rev (x :: cur) :: getlines [] s'
      else getlines (x :: cur) s'
  end.

(** [fopen(fname, "r")]: the lines to be read, or [errno]. *)
Definition fopen_r (fname : string) (st : state) : Z + list (list ascii) :=
  match fs st !! fname with
  | None => inl ENOENT
  | Some Orphan => inl ENOENT
  | Some (Regular true _ contents) => inr (getlines [] contents)
  | Some (Regular false _ _) => inl EACCES
  end.

(** [fopen(fname, "w")]: truncates or creates, or [errno] with a [NULL]
    result. *)
Definition fopen_w (fname : string) (st : state) : Z + state :=
  match fs st !! fname with
  | None => inr (set_fs (<[fname := Regular true true []]> (fs st)) st)
  | Some Orphan => inl ENOENT
  | Some (Regular r true _) => inr (set_fs (<[fname := Regular r true []]> (fs st)) st)
  | Some (Regular _ false _) => inl EACCES
  end.

(** [fopen(fname, "w+")]: as ["w"], and the stream can be read (it is empty). *)
Definition fopen_w_plus (fname : string) (st : state) : Z + (list (list ascii) * state) :=
  match fs st !! fname with
  | None => inr ([], set_fs (<[fname := Regular true true []]> (fs st)) st)
  | Some (Regular true true _) =>
      inr ([], set_fs (<[fname := Regular true true []]> (fs st)) st)
  | Some Orphan => inl ENOENT
  | Some (Regular _ _ _) => inl EACCES
  end.

(** The message of [strerror] for the error numbers above. *)
Definition strerror (errno : Z) : list ascii :=
  if errno =? ENOENT then String.list_ascii_of_string "No such file or directory"
  else if errno =? EACCES then String.list_ascii_of_string "Permission denied"
  else String.list_ascii_of_string "Unknown error".

(** [perror(s)]: [s], a colon and a blank, the message for [errno] and a
    newline, on stderr. *)
Definition perror (s : string) (errno : Z) (st : state) : state :=
  set_stderr (stderr st ++ String.list_ascii_of_string s ++ String.list_ascii_of_string ": "
                ++ strerror errno ++ [nl]) st.

Definition create_empty_file (fname : string) (st : state)
  : res (list (list ascii) * state) :=
  match fopen_w_plus fname st with
  | inl errno => Exit EXIT_FAILURE (perror "ed: create_empty_file" errno st)
  | inr create_file => Ret create_file
  end.

(** The [while (getline(...) != -1)] loop of [read_lines]. *)
Fixpoint read_lines_loop (file : list (list ascii)) (idx : ptr) (lines_read : Z) (st : state)
  : res (ptr * Z * state) :=
  match file with
  | [] => Ret (idx, lines_read, st)
  | current_line :: file =>
      st ← charray_to_line idx current_line st;
      st ← APPEND_LL_line idx st;
      n ← load_line idx st;
      let idx := next n in
      let lines_read := if lines_read =? 0 then 1 else lines_read in
      read_lines_loop file idx lines_read st
  end.

(** [read_lines(fname, &dest)]: returns the value left in [dest]. *)
Definition read_lines (fname : string) (st : state) : res (ptr * state) :=
  '(file, st) ← match fopen_r fname st with
                | inr file => Ret (file, st)
                | inl errno =>
                    if errno =? ENOENT then create_empty_file fname st
                    else Exit EXIT_FAILURE (perror "ed" errno st)
                end;
  let '(dest, st) := ALLOC_LL_line st in
  st ← store_line dest (with_prev NULL) st;
  st ← store_line dest (with_next NULL) st;
  '(idx, lines_read, st) ← read_lines_loop file dest 0 st;
  if lines_read =? 0 then
    st ← free_line dest st;
    Ret (NULL, st)
  else
    n ← load_line idx st;
    let idx := prev n in
    n ← load_line idx st;
    st ← free_line (next n) st;
    st ← store_line idx (with_next NULL) st;
    Ret (dest, st).

Fixpoint lines_to_handle_loop (fuel : nat) (file : FILE) (lines : ptr) (st : state)
  : res state :=
  match fuel with
  | O => Diverge
  | S fuel =>
      z ← is_null lines;
      if (z : bool) then Ret st
      else line ← lines_to_charray lines st;
           s ← c_str line;
           st ← fputs s file st;
           n ← load_line lines st;
           lines_to_handle_loop fuel file (next n) st
  end.

Definition lines_to_handle (file : FILE) (lines : ptr) (st : state) : res state :=
  lines_to_handle_loop (line_fuel st) file lines st.

Definition write_lines (fname : string) (lines : ptr) (st : state) : res state :=
  match fopen_w fname st with
  | inl errno => Exit EXIT_FAILURE (perror "ed" errno st)
  | inr st => lines_to_handle (OnDisk fname) lines st
  end.

(** ** Insertion *)

Definition sigint_handler (st : state) : state := set_stop_insertion 1 st.

(** A read of [stop_insertion].  The handler runs first if a SIGINT came
    in since the flag was last looked at. *)
Definition read_stop_insertion (st : state) : Z * state :=
  match sigint st with
  | [] => (stop_insertion st, st)
  | arrived :: later =>
      let st := set_sigint later st in
      let st := if (arrived : bool) then sigint_handler st else st in
      (stop_insertion st, st)
  end.

(** Lines 296-313: link [new_line] into the buffer after the current line. *)
Definition insert_line_link (new_line : ptr) (st : state) : res state :=
  z ← is_null (lines st);
  if (z : bool) then
    st ← store_line new_line (with_next NULL) st;
    st ← store_line new_line (with_prev NULL) st;
    let st := set_lines new_line st in
    Ret (set_start (lines st) st)
  else
    cur ← load_line (lines st) st;
    st ← store_line new_line (with_next (next cur)) st;
    st ← store_line new_line (with_prev (lines st)) st;
    cur ← load_line (lines st) st;
    z ← is_null (next cur);
    st ← (if (z : bool) then Ret st
          else store_line (next cur) (with_prev new_line) st);
    st ← store_line (lines st) (with_next new_line) st;
    Ret (set_lines new_line st).

(** The [while (!stop_insertion)] loop; [input] is what is left on stdin. *)
Fixpoint insert_line_loop (input : list (list ascii)) (st : state) : res state :=
  let '(flag, st) := read_stop_insertion st in
  if flag =? 0 then
    let '(new_line, st) := ALLOC_LL_line st in
    match input with
    | [] => Exit EXIT_FAILURE st
    | buffer :: input =>
        let st := set_stdin input st in
        let '(flag, st) := read_stop_insertion st in
        if negb (flag =? 0) then Ret st
        else
          st ← charray_to_line new_line buffer st;
          st ← insert_line_link new_line st;
          insert_line_loop input st
    end
  else Ret st.

Definition insert_line (st : state) : res state :=
  let st := set_stop_insertion 0 st in
  insert_line_loop (stdin st) st.

(** ** Deletion *)

(** [p == q] on pointers that must both hold a value. *)
Definition ptr_eq (p q : ptr) : res bool :=
  match p, q with
  | Undef, _ | _, Undef => Fault
  | _, _ => Ret (bool_decide (p = q))
  end.

(** [delete_line(&start, line)]: returns [ret]. *)
Definition delete_line (line : ptr) (st : state) : res (ptr * state) :=
  let ret := Undef in
  z ← is_null line;
  if (z : bool) then Ret (NULL, st)
  else
    e ← ptr_eq (start st) line;
    st ← (if (e : bool) then n ← load_line line st; Ret (set_start (next n) st)
          else Ret st);
    n ← load_line line st;
    z ← is_null (next n);
    '(ret, st) ← (if (z : bool) then Ret (ret, st)
                  else st ← store_line (next n) (with_prev (prev n)) st;
                       Ret (next n, st));
    n ← load_line line st;
    z ← is_null (prev n);
    '(ret, st) ← (if (z : bool) then Ret (ret, st)
                  else st ← store_line (prev n) (with_next (next n)) st;
                       Ret (prev n, st));
    n ← load_line line st;
    zn ← is_null (next n);
    zp ← (if (zn : bool) then is_null (prev n) else Ret false);
    let ret := if (zp : bool) then NULL else ret in
    st ← destroy_line line st;
    Ret (ret, st).

(** ** The command interpreter *)

Fixpoint run_instructions (fname : string) (s : list ascii) (st : state) : res (Z * state) :=
  match s with
  | [] => Ret (0, st)
  | x :: s =>
      if Ascii.eqb x nl || Ascii.eqb x NUL then Ret (0, st)
      else if Ascii.eqb x "n" then
        z ← is_null (lines st);
        if (z : bool) then Ret (-1, st)
        else n ← load_line (lines st) st;
             z ← is_null (next n);
             if (z : bool) then Ret (-1, st)
             else run_instructions fname s (set_lines (next n) st)
      else if Ascii.eqb x "b" then
        z ← is_null (lines st);
        if (z : bool) then Ret (-2, st)
        else n ← load_line (lines st) st;
             z ← is_null (prev n);
             if (z : bool) then Ret (-2, st)
             else run_instructions fname s (set_lines (prev n) st)
      else if Ascii.eqb x "p" then
        st ← print_line (lines st) st;
        run_instructions fname s st
      else if Ascii.eqb x "i" then
        st ← insert_line st;
        run_instructions fname s st
      else if Ascii.eqb x "l" then
        st ← lines_to_handle Stdout (start st) st;
        run_instructions fname s st
      else if Ascii.eqb x "d" then
        '(ret, st) ← delete_line (lines st) st;
        run_instructions fname s (set_lines ret st)
      else if Ascii.eqb x "q" then Ret (-3, st)
      else if Ascii.eqb x "w" then
        st ← write_lines fname (start st) st;
        run_instructions fname s st
      else if Ascii.eqb x "h" then
        st ← usage st;
        run_instructions fname s st
      else run_instructions fname s st
  end.

(** ** One turn of main's loop *)

Definition PROMPT : list ascii := String.list_ascii_of_string ": ".

Inductive main_next := Again | End.

(** The [switch] on the value of [run_instructions]. *)
Definition main_switch (FILE_NAME : string) (r : Z) (st : state) : res (main_next * state) :=
  if r =? -1 then st ← fputs (String.list_ascii_of_string "EOF") Stdout st; Ret (Again, st)
  else if r =? -2 then
    st ← fputs (String.list_ascii_of_string "START") Stdout st; Ret (Again, st)
  else if r =? -3 then Ret (End, st)
  else if r =? -4 then st ← write_lines FILE_NAME (start st) st; Ret (Again, st)
  else Ret (Again, st).

(** The body of [for (;;)]: prompt, read a command line, run it. *)
Definition main_turn (FILE_NAME : string) (st : state) : res (main_next * state) :=
  st ← fputs PROMPT Stdout st;
  match stdin st with
  | [] => Exit EXIT_FAILURE st
  | input :: later =>
      let st := set_stdin later st in
      '(r, st) ← run_instructions FILE_NAME input st;
      main_switch FILE_NAME r st
  end.

(** ** The file name argument *)

(** [strlen(s)] on a char array: the index of its first NUL; an array
    without one is read past its end. *)
Fixpoint strlen (s : buffer) : res nat :=
  match s with
  | [] => Fault
  | None :: _ => Fault
  | Some x :: s' =>
      if Ascii.eqb x NUL then Ret 0%nat else n ← strlen s'; Ret (S n)
  end.

(** Stores a NUL at index [strlen] of the array the argument points to. *)
Definition remove_last_char (s : buffer) : res buffer :=
  n ← strlen s;
  buffer_store s n NUL.

(** * Part II: the vocabulary of the specification *)

(** ** Chains and line segments *)

(** [cseg h p q cells]: following [c_next] from [p] visits the nodes of
    [cells], each holding its byte, and arrives at [q]. *)
Fixpoint cseg (h : gmap loc character) (p q : ptr) (cells : list (loc * ascii)) : Prop :=
  match cells with
  | [] => p = q
  | (a, x) :: cells =>
      p = Ptr a ∧ ∃ n, h !! a = Some n ∧ c n = Some x ∧ cseg h (c_next n) q cells
  end.

(** A Character Chain: a segment that ends in [NULL]. *)
Definition chain (h : gmap loc character) (p : ptr) (cells : list (loc * ascii)) : Prop :=
  cseg h p NULL cells.

(** [dseg hl hc pv p q lastp ls]: following [next] from [p] visits the
    lines of [ls] and arrives at [q]; each line's [prev] is the line before
    it ([pv] for the first), [lastp] is the last line visited ([pv] if
    there is none), and each line's [data] is the chain recorded in [ls]. *)
Fixpoint dseg (hl : gmap loc line) (hc : gmap loc character) (pv p q lastp : ptr)
    (ls : list (loc * list (loc * ascii))) : Prop :=
  match ls with
  | [] => p = q ∧ lastp = pv
  | (a, cells) :: ls =>
      p = Ptr a ∧
      ∃ n, hl !! a = Some n ∧ prev n = pv ∧ chain hc (data n) cells ∧
           dseg hl hc (Ptr a) (next n) q lastp ls
  end.

(** The addresses of the character nodes of a list of lines. *)
Definition cell_addrs (ls : list (loc * list (loc * ascii))) : list loc :=
  (concat ls.*2).*1.

(** A pointer to the line [o], [NULL] if there is none. *)
Definition ptr_of (o : option (loc * list (loc * ascii))) : ptr :=
  match o with
  | Some (a, _) => Ptr a
  | None => NULL
  end.

(** ** Buffers and cursors *)

(** The state holds the Line Buffer [ls] in nodes that are whole structs:
    from [start] the lines of [ls] form a doubly linked list ending in
    [NULL] on both sides, no node is shared, and the address of every such
    node is below [brk]. *)
Record wf (st : state) (ls : list (loc * list (loc * ascii))) : Prop := Wf {
  wf_dseg : ∃ lastp, dseg (mem_line st) (mem_character st) NULL (start st) NULL lastp ls;
  wf_lines_NoDup : NoDup ls.*1;
  wf_cells_NoDup : NoDup (cell_addrs ls);
  wf_line_brk : ∀ a, is_Some (mem_line st !! a) → (a < brk st)%positive;
  wf_character_brk : ∀ a, is_Some (mem_character st !! a) → (a < brk st)%positive
}.

(** The current line is empty or one of the buffer's lines. *)
Definition cursor_at (st : state) (ls : list (loc * list (loc * ascii))) : Prop :=
  lines st = NULL ∨ ∃ a, lines st = Ptr a ∧ a ∈ ls.*1.

(** A state the interpreter can be in: a well-formed buffer with the
    cursor on one of its lines (or nowhere). *)
Definition inv (st : state) : Prop := ∃ ls, wf st ls ∧ cursor_at st ls.

(** [reachable hl p a]: following [next] zero or more times from [p]
    arrives at the line at [a]. *)
Inductive reachable (hl : gmap loc line) : ptr → loc → Prop :=
| reachable_here a n : hl !! a = Some n → reachable hl (Ptr a) a
| reachable_next b n a :
    hl !! b = Some n → reachable hl (next n) a → reachable hl (Ptr b) a.

(** The cursor invariant of the data model: the current line is empty or a
    line (the variable holds a value), and if it is a line, it is reachable
    from [start], and [start] is a line with no previous line. *)
Definition cursor_inv (st : state) : Prop :=
  lines st ≠ Undef ∧
  ∀ a, lines st = Ptr a →
    reachable (mem_line st) (start st) a ∧
    ∃ s n, start st = Ptr s ∧ mem_line st !! s = Some n ∧ prev n = NULL.

(** Two states with the same heap, cursors and allocation mark. *)
Definition same_heap (st st' : state) : Prop :=
  mem_line st' = mem_line st ∧ mem_character st' = mem_character st ∧
  start st' = start st ∧ lines st' = lines st ∧ brk st' = brk st.

(** The cursor can be read: it is [NULL] or points to an allocated line
    whose links hold values. *)
Definition valid_cursor (st : state) : Prop :=
  lines st = NULL ∨
  ∃ a nd, lines st = Ptr a ∧ mem_line st !! a = Some nd ∧
          next nd ≠ Undef ∧ prev nd ≠ Undef.

(** The current line cannot be left forwards: there is none, or it has no
    next line. *)
Definition cannot_advance (st : state) : Prop :=
  lines st = NULL ∨
  ∃ a nd, lines st = Ptr a ∧ mem_line st !! a = Some nd ∧ next nd = NULL.

(** The same backwards. *)
Definition cannot_retreat (st : state) : Prop :=
  lines st = NULL ∨
  ∃ a nd, lines st = Ptr a ∧ mem_line st !! a = Some nd ∧ prev nd = NULL.

(** ** Text *)

(** The text a line holds. *)
Definition line_text (l : loc * list (loc * ascii)) : list ascii := l.2.*2.

(** The bytes of [s] before its first NUL: what ["%s"] prints of it. *)
Fixpoint until_NUL (s : list ascii) : list ascii :=
  match s with
  | [] => []
  | x :: s => if Ascii.eqb x NUL then [] else x :: until_NUL s
  end.

(** What listing a line writes. *)
Definition printed (l : loc * list (loc * ascii)) : list ascii :=
  until_NUL (line_text l ++ [nl]).

(** [chainToText (textToChain L)]: build the chain of [L] in the line at
    [d], flatten it again, and read the result as a C string. *)
Definition round_trip (d : ptr) (L : list ascii) (st : state) : res (list ascii) :=
  st ← charray_to_line d L st;
  b ← lines_to_charray d st;
  c_str b.

(** ** Deletion *)

(** The character heap once the nodes at [addrs] are freed, first to last. *)
Definition free_cells (addrs : list loc) (hc : gmap loc character) : gmap loc character :=
  foldl (λ h a, delete a h) hc addrs.

(** The cursor after the line between [l1] and [l2] is deleted: the last
    line of [l1], else the first of [l2], else [NULL]. *)
Definition new_current (l1 l2 : list (loc * list (loc * ascii))) : ptr :=
  match last l1 with
  | Some (p, _) => Ptr p
  | None => ptr_of (head l2)
  end.

(** The cursor [delete_line] returns: the previous line if there is one,
    else the next line, else none. *)
Definition returned_new_current (nd : line) : ptr :=
  match prev nd with
  | Ptr p => Ptr p
  | _ => match next nd with Ptr n => Ptr n | _ => NULL end
  end.

(** The cursor the claim promises after deleting a line with node [nd]:
    its next line if there is one, else its previous line, else none. *)
Definition claimed_new_current (nd : line) : ptr :=
  match next nd with
  | Ptr n => Ptr n
  | _ => match prev nd with Ptr p => Ptr p | _ => NULL end
  end.

(** ** Insertion *)


(** ** Moving *)

(** The address of the last line of [news], [a] if there is none. *)
Definition last_addr (a : loc) (news : list (loc * list (loc * ascii))) : loc :=
  match last news with
  | Some (b, _) => b
  | None => a
  end.

(** ** Output *)

(** The stream can be written to: a file on disk has to exist. *)
Definition can_write (file : FILE) (st : state) : Prop :=
  match file with
  | OnDisk fname => ∃ r w contents, fs st !! fname = Some (Regular r w contents)
  | _ => True
  end.

(** The state after [s] is written to an open stream. *)
Definition fput_state (s : list ascii) (file : FILE) (st : state) : state :=
  match file with
  | Stdout => set_stdout (stdout st ++ s) st
  | Stderr => set_stderr (stderr st ++ s) st
  | OnDisk fname =>
      match fs st !! fname with
      | Some (Regular r w contents) =>
          set_fs (<[fname := Regular r w (contents ++ s)]> (fs st)) st
      | _ => st
      end
  end.

(** ** Command lines *)

(** The command letters. *)
Definition commands : list ascii := ["n"; "b"; "p"; "i"; "l"; "d"; "q"; "w"; "h"]%char.

(** [x] is neither a terminator nor a command letter. *)
Definition unrecognized (x : ascii) : Prop :=
  at_terminator [x] = false ∧ x ∉ commands.

(** The operation that the command letters other than [n], [b] and [q]
    stand for, on the shared cursor state. *)
Definition operation (fname : string) (x : ascii) (st : state) : res state :=
  if Ascii.eqb x "p" then print_line (lines st) st
  else if Ascii.eqb x "i" then insert_line st
  else if Ascii.eqb x "l" then lines_to_handle Stdout (start st) st
  else if Ascii.eqb x "d" then '(ret, st) ← delete_line (lines st) st; Ret (set_lines ret st)
  else if Ascii.eqb x "w" then write_lines fname (start st) st
  else if Ascii.eqb x "h" then usage st
  else Ret st.

(** ** A checker for [wf] on concrete states *)

Fixpoint chain_check (hc : gmap loc character) (p : ptr) (cells : list (loc * ascii)) : bool :=
  match cells with
  | [] => bool_decide (p = NULL)
  | (a, x) :: cells =>
      match hc !! a with
      | Some n =>
          bool_decide (p = Ptr a) && bool_decide (c n = Some x) &&
          chain_check hc (c_next n) cells
      | None => false
      end
  end.

Fixpoint dseg_check (hl : gmap loc line) (hc : gmap loc character) (pv p q lastp : ptr)
    (ls : list (loc * list (loc * ascii))) : bool :=
  match ls with
  | [] => bool_decide (p = q) && bool_decide (lastp = pv)
  | (a, cells) :: ls =>
      match hl !! a with
      | Some n =>
          bool_decide (p = Ptr a) && bool_decide (prev n = pv) &&
          chain_check hc (data n) cells && dseg_check hl hc (Ptr a) (next n) q lastp ls
      | None => false
      end
  end.

Definition wf_check (st : state) (ls : list (loc * list (loc * ascii))) : bool :=
  dseg_check (mem_line st) (mem_character st) NULL (start st) NULL (ptr_of (last ls)) ls &&
  bool_decide (NoDup ls.*1) && bool_decide (NoDup (cell_addrs ls)) &&
  bool_decide (map_Forall (λ a _, (a < brk st)%positive) (mem_line st)) &&
  bool_decide (map_Forall (λ a _, (a < brk st)%positive) (mem_character st)).

(** ** Concrete states *)

(** Nothing allocated, nothing typed, no files. *)
Definition empty_state : state :=
  State ∅ ∅ ∅ ∅ 1%positive 0 [] [] [] [] ∅ NULL NULL.

(** The bytes of a string literal. *)
Definition text (s : string) : list ascii := String.list_ascii_of_string s.

(** A line freshly allocated in an empty heap, as [insert_line] has it
    when it calls [charray_to_line]. *)
Definition one_line_state : state := (ALLOC_LL_line empty_state).2.

(** An editor started on a file ["f"] of three lines. *)
Definition abc_state : state :=
  set_fs {[ "f"%string := Regular true true (text "a" ++ nl :: text "b" ++ nl :: text "c" ++ [nl]) ]}
    empty_state.

(** The three lines of ["f"] held in nodes that are whole structs: lines
    at 1, 4 and 7, each with the chain of its letter and a space, the
    cursor on the first line. *)
Definition abc_loaded : state :=
  State
    (<[2 := Character (Some "a") (Ptr 3) Undef]> (<[3 := Character (Some " ") NULL (Ptr 2)]>
     (<[5 := Character (Some "b") (Ptr 6) Undef]> (<[6 := Character (Some " ") NULL (Ptr 5)]>
     (<[8 := Character (Some "c") (Ptr 9) Undef]> (<[9 := Character (Some " ") NULL (Ptr 8)]>
      ∅))))))%positive%char
    (<[1 := Line (Ptr 2) (Ptr 4) NULL]> (<[4 := Line (Ptr 5) (Ptr 7) (Ptr 1)]>
     (<[7 := Line (Ptr 8) NULL (Ptr 4)]> ∅)))%positive
    ∅ ∅ 11%positive 0 [] [] [] [] (fs abc_state) (Ptr 1) (Ptr 1).

(** [abc_loaded] after [n]. *)
Definition abc_second : state :=
  match run_instructions "f" (text "n") abc_loaded with
  | Ret (_, st) => st
  | _ => empty_state
  end.

(** The buffer of [abc_loaded] and [abc_second]: lines at 1, 4 and 7. *)
Definition abc_lines : list (loc * list (loc * ascii)) :=
  [(1, [(2, "a"); (3, " ")]); (4, [(5, "b"); (6, " ")]); (7, [(8, "c"); (9, " ")])]%positive%char.

(** No buffer, two lines typed, SIGINT, and a third line that the
    cancelled read returns. *)
Definition typing_state : state :=
  set_sigint [false; false; false; false; false; true]
    (set_stdin [text "one" ++ [nl]; text "two" ++ [nl]; text "lost" ++ [nl]] empty_state).

(** [abc_second] with a SIGINT pending from before, one line typed, then
    SIGINT and a line that is read and dropped. *)
Definition abc_typing : state :=
  set_stop_insertion 1
    (set_sigint [false; false; false; true]
       (set_stdin [text "new" ++ [nl]; text "lost" ++ [nl]; text "q" ++ [nl]] abc_second)).

(** ** Further vocabulary *)

(** The line heap once the nodes at [addrs] are freed, first to last. *)
Definition free_lines (addrs : list loc) (hl : gmap loc line) : gmap loc line :=
  foldl (λ h a, delete a h) hl addrs.

(** A text that holds neither a newline nor a NUL. *)
Definition plain (t : list ascii) : Prop := (nl ∉ t) ∧ (NUL ∉ t).

(** What the file holds after the lines with texts [ts] were written. *)
Definition written (ts : list (list ascii)) : list ascii :=
  concat ((λ t, t ++ [nl]) <$> ts).

(** The state holds the buffer [ls] as the editor keeps it: well formed,
    the cursor on one of its lines and empty only if there is no line. *)
Definition holds (st : state) (ls : list (loc * list (loc * ascii))) : Prop :=
  wf st ls ∧ cursor_at st ls ∧ (lines st = NULL → ls = []).

Definition editor_inv (st : state) : Prop := ∃ ls, holds st ls.

(** * Part III: theorems *)

(** ** The model runs *)

Example command_line_list :
  ('(r, st) ← run_instructions "f" (text "l") abc_loaded; Ret (r, stdout st))
  = Ret (0, text "a " ++ nl :: text "b " ++ nl :: text "c " ++ [nl]).
Proof. vm_compute. reflexivity. Qed.

Example command_line_delete_middle :
  ('(r, st) ← run_instructions "f" (text "ndpl") abc_loaded; Ret (r, stdout st))
  = Ret (0, text "a " ++ nl :: text "a " ++ nl :: text "c " ++ [nl]).
Proof. vm_compute. reflexivity. Qed.

Example command_line_eof :
  ('(r, st) ← run_instructions "f" (text "nnnp") abc_loaded; Ret (r, stdout st)) = Ret (-1, []).
Proof. vm_compute. reflexivity. Qed.

(** ** Character chains *)

Section Chains.
Implicit Types (h : gmap loc character) (cells : list (loc * ascii)).

Lemma cseg_frame h h' p q cells :
  (∀ a, a ∈ cells.*1 → h' !! a = h !! a) → cseg h p q cells → cseg h' p q cells.
Proof.
  revert p. induction cells as [|[a x] cells IH]; simpl; intros p Hfr; [done|].
  intros (-> & n & Hn & Hc & Hseg). split; [done|]. exists n.
  rewrite Hfr by set_solver. split_and!; [done..|]. apply IH; [|done].
  intros b Hb. apply Hfr. simpl. by apply elem_of_cons; right.
Qed.

Lemma chain_allocated h p cells a :
  cseg h p NULL cells → a ∈ cells.*1 → is_Some (h !! a).
Proof.
  revert p. induction cells as [|[b x] cells IH]; simpl; intros p.
  - set_solver.
  - intros (-> & n & Hn & Hc & Hseg) [->|Hin]%elem_of_cons; eauto.
Qed.
End Chains.

Lemma cseg_det h p cells1 : ∀ cells2,
  cseg h p NULL cells1 → cseg h p NULL cells2 → cells1 = cells2.
Proof.
  revert p. induction cells1 as [|[a x] cells1 IH]; intros p [|[b y] cells2]; simpl.
  - done.
  - intros -> (? & _). done.
  - intros (-> & _) ?. done.
  - intros (-> & n & Hn & Hc & Hseg) (? & n' & Hn' & Hc' & Hseg'). simplify_eq.
    f_equal. eapply IH; eauto.
Qed.

Lemma cseg_split h p r cells1 cells2 :
  cseg h p r (cells1 ++ cells2) → ∃ q, cseg h p q cells1 ∧ cseg h q r cells2.
Proof.
  revert p. induction cells1 as [|[a x] cells1 IH]; simpl; intros p.
  - eauto.
  - intros (-> & n & Hn & Hc & Hseg). destruct (IH _ Hseg) as (q & H1 & H2).
    exists q. split; [|done]. split; [done|]. eauto.
Qed.

Lemma chain_NoDup h p cells : chain h p cells → NoDup cells.*1.
Proof.
  unfold chain. revert p. induction cells as [|[a x] cells IH]; simpl; intros p.
  - intros _. constructor.
  - intros (-> & n & Hn & Hc & Hseg). constructor; [|eauto].
    intros Hin. apply list_elem_of_fmap in Hin as ([a' y] & Heq & Hin). simpl in Heq. subst a'.
    apply list_elem_of_split in Hin as (r1 & r2 & ->).
    destruct (cseg_split _ _ _ _ _ Hseg) as (q & H1 & H2).
    assert (Hfull : cseg h (Ptr a) NULL ((a, x) :: r1 ++ (a, y) :: r2)).
    { simpl. split; [done|]. eauto. }
    pose proof H2 as H2'. simpl in H2'. destruct H2' as (-> & _).
    pose proof (cseg_det _ _ _ _ Hfull H2) as Heq.
    apply (f_equal length) in Heq. simpl in Heq. rewrite length_app in Heq. simpl in Heq. lia.
Qed.

Lemma NoDup_allocated_length {V} (h : gmap positive V) (l : list positive) :
  NoDup l → (∀ a, a ∈ l → is_Some (h !! a)) → (length l ≤ size h)%nat.
Proof.
  intros Hnd Hall. rewrite <- (size_dom (D := gset positive)).
  change (size (dom h)) with (length (elements (dom h))).
  apply submseteq_length, NoDup_submseteq; [done|].
  intros a Ha. apply elem_of_elements, elem_of_dom. auto.
Qed.

Lemma chain_length_fuel h p cells : chain h p cells → (length cells < S (size h))%nat.
Proof.
  intros Hch. pose proof (chain_NoDup _ _ _ Hch) as Hnd.
  apply (NoDup_allocated_length h) in Hnd.
  - rewrite length_fmap in Hnd. lia.
  - intros a Ha. eapply chain_allocated; eauto.
Qed.

(** ** Stepping through memory operations *)

Arguments load_character : simpl never.
Arguments store_character : simpl never.
Arguments load_line : simpl never.
Arguments store_line : simpl never.
Arguments free_character : simpl never.
Arguments free_line : simpl never.
Arguments store_c : simpl never.
Arguments load_data : simpl never.
Arguments store_data : simpl never.
Arguments APPEND_LL_character : simpl never.
Arguments APPEND_LL_line : simpl never.

Lemma load_character_Some a n st :
  mem_character st !! a = Some n → load_character (Ptr a) st = Ret n.
Proof. unfold load_character. by intros ->. Qed.

Lemma load_data_Some a n st :
  mem_line st !! a = Some n → load_data (Ptr a) st = Ret (data n).
Proof. unfold load_data. by intros ->. Qed.

Lemma store_line_Some a n f st :
  mem_line st !! a = Some n →
  store_line (Ptr a) f st = Ret (set_mem_line (<[a := f n]> (mem_line st)) st).
Proof. unfold store_line. by intros ->. Qed.

Lemma load_line_Some a n st :
  mem_line st !! a = Some n → load_line (Ptr a) st = Ret n.
Proof. unfold load_line. by intros ->. Qed.

Lemma free_character_Some a n st :
  mem_character st !! a = Some n →
  free_character (Ptr a) st = Ret (set_mem_character (delete a (mem_character st)) st).
Proof. unfold free_character. by intros ->. Qed.

Lemma free_line_Some a n st :
  mem_line st !! a = Some n →
  free_line (Ptr a) st = Ret (set_mem_line (delete a (mem_line st)) st).
Proof. unfold free_line. by intros ->. Qed.

Ltac look :=
  simpl;
  repeat first [rewrite lookup_insert_eq | rewrite lookup_insert_ne by (congruence || lia)
               | rewrite lookup_delete_ne by (congruence || lia)];
  try eassumption; try reflexivity.

Ltac rw L := erewrite L; [|solve [look]..]; simpl.

(** ** Text to chain and back *)


Lemma lines_to_charray_count_spec cells : ∀ fuel p acc st,
  chain (mem_character st) p cells → (length cells < fuel)%nat →
  lines_to_charray_count fuel p acc st = Ret (acc + length cells)%nat.
Proof.
  unfold chain. induction cells as [|[a x] cells IH]; intros [|fuel] p acc st; simpl; try lia.
  - intros -> _. simpl. f_equal. lia.
  - intros (-> & n & Hn & Hc & Hseg) Hlt. simpl. rw load_character_Some.
    rewrite IH by (done || lia). f_equal. lia.
Qed.

Lemma lines_to_charray_copy_spec cells : ∀ fuel p i (b : buffer) st,
  chain (mem_character st) p cells → (length cells < fuel)%nat →
  (i + length cells ≤ length b)%nat →
  lines_to_charray_copy fuel p i b st
  = Ret (take i b ++ (Some <$> cells.*2) ++ drop (i + length cells) b).
Proof.
  unfold chain. induction cells as [|[a x] cells IH]; intros [|fuel] p i b st; simpl; try lia.
  - intros -> _ _. simpl. by rewrite Nat.add_0_r, take_drop.
  - intros (-> & n & Hn & Hc & Hseg) Hlt Hlen. simpl. rw load_character_Some.
    rewrite Hc. unfold buffer_store. rewrite decide_True by lia. simpl.
    rewrite IH; [|done|lia|rewrite length_insert; lia].
    f_equal. destruct (lookup_lt_is_Some_2 b i) as [y Hy]; [lia|].
    erewrite take_S_r by (rewrite list_lookup_insert_eq; [done|lia]).
    rewrite take_insert_ge by lia. rewrite drop_insert_lt by lia.
    rewrite <- app_assoc. replace (i + S (length cells))%nat with (S i + length cells)%nat by lia. done.
Qed.

Lemma lines_to_charray_spec d nd cells st :
  mem_line st !! d = Some nd →
  chain (mem_character st) (data nd) cells →
  lines_to_charray (Ptr d) st = Ret (Some <$> (cells.*2 ++ [nl; NUL])).
Proof.
  intros Hd Hch. unfold lines_to_charray.
  erewrite load_data_Some by done. cbn [mbind res_bind].
  pose proof (chain_length_fuel _ _ _ Hch) as Hfuel.
  rewrite (lines_to_charray_count_spec cells) by done. cbn [mbind res_bind].
  rewrite (lines_to_charray_copy_spec cells); [|done|done|].
  2:{ unfold MALLOC_buffer. rewrite length_replicate. lia. }
  cbn [mbind res_bind]. unfold MALLOC_buffer, buffer_store.
  change (0 + length cells)%nat with (length cells).
  rewrite drop_replicate. replace (length cells + 2 - length cells)%nat with 2%nat by lia.
  change (take 0 _) with (@nil (option ascii)). rewrite app_nil_l.
  assert (Hlen : length (Some <$> cells.*2) = length cells) by by rewrite !length_fmap.
  rewrite decide_True by (rewrite length_app, Hlen; simpl; lia).
  cbn [mbind res_bind].
  rewrite decide_True by (rewrite length_insert, length_app, Hlen; simpl; lia).
  f_equal. rewrite fmap_app.
  rewrite (insert_app_r_alt _ _ (length cells)) by (rewrite Hlen; lia).
  rewrite Hlen, Nat.sub_diag. simpl.
  rewrite (insert_app_r_alt _ _ (length cells + 1)) by (rewrite Hlen; lia).
  rewrite Hlen. replace (length cells + 1 - length cells)%nat with 1%nat by lia. done.
Qed.

Lemma c_str_until_NUL s : c_str (Some <$> (s ++ [NUL])) = Ret (until_NUL s).
Proof.
  induction s as [|x s IH]; [done|].
  rewrite <- app_comm_cons, fmap_cons. cbn [c_str until_NUL].
  destruct (Ascii.eqb x NUL); [done|]. by rewrite IH.
Qed.

Lemma until_NUL_id s : NUL ∉ s → until_NUL s = s.
Proof.
  induction s as [|x s IH]; [done|]. intros Hnin. cbn [until_NUL].
  destruct (Ascii.eqb_spec x NUL) as [->|_].
  - exfalso. apply Hnin. by left.
  - f_equal. apply IH. intros Hin. apply Hnin. by right.
Qed.

(** ** Line segments *)

Section Segments.
Implicit Types (hl : gmap loc line) (hc : gmap loc character).
Implicit Types (ls : list (loc * list (loc * ascii))).

Lemma dseg_app hl hc pv p m lm q lastp ls1 ls2 :
  dseg hl hc pv p m lm ls1 → dseg hl hc lm m q lastp ls2 →
  dseg hl hc pv p q lastp (ls1 ++ ls2).
Proof.
  revert pv p. induction ls1 as [|[a cs] ls1 IH]; simpl; intros pv p.
  - intros [-> ->]. done.
  - intros (-> & n & Hn & Hp & Hch & Hseg) H2. split; [done|]. exists n. eauto.
Qed.

Lemma dseg_split hl hc pv p q lastp ls1 ls2 :
  dseg hl hc pv p q lastp (ls1 ++ ls2) →
  ∃ m lm, dseg hl hc pv p m lm ls1 ∧ dseg hl hc lm m q lastp ls2.
Proof.
  revert pv p. induction ls1 as [|[a cs] ls1 IH]; simpl; intros pv p.
  - intros H. exists p, pv. done.
  - intros (-> & n & Hn & Hp & Hch & Hseg).
    destruct (IH _ _ Hseg) as (m & lm & H1 & H2). exists m, lm. split; [|done].
    split; [done|]. exists n. eauto.
Qed.

Lemma cell_addrs_cons a cs ls : cell_addrs ((a, cs) :: ls) = cs.*1 ++ cell_addrs ls.
Proof. unfold cell_addrs. simpl. by rewrite fmap_app. Qed.

Lemma cell_addrs_app ls1 ls2 : cell_addrs (ls1 ++ ls2) = cell_addrs ls1 ++ cell_addrs ls2.
Proof. unfold cell_addrs. by rewrite fmap_app, concat_app, fmap_app. Qed.

Lemma dseg_frame hl hc hl' hc' pv p q lastp ls :
  (∀ a, a ∈ ls.*1 → hl' !! a = hl !! a) →
  (∀ a, a ∈ cell_addrs ls → hc' !! a = hc !! a) →
  dseg hl hc pv p q lastp ls → dseg hl' hc' pv p q lastp ls.
Proof.
  revert pv p. induction ls as [|[a cs] ls IH]; simpl; intros pv p Hl Hc; [done|].
  intros (-> & n & Hn & Hp & Hch & Hseg). split; [done|]. exists n.
  rewrite Hl by (by left). split_and!; [done..| |].
  - eapply cseg_frame; [|exact Hch]. intros b Hb. apply Hc.
    rewrite cell_addrs_cons. apply elem_of_app. by left.
  - apply IH; [| |done].
    + intros b Hb. apply Hl. by right.
    + intros b Hb. apply Hc. rewrite cell_addrs_cons. apply elem_of_app. by right.
Qed.

(** The last line of a non-empty segment. *)
Lemma dseg_last hl hc pv p q lastp ls a cs :
  dseg hl hc pv p q lastp (ls ++ [(a, cs)]) →
  lastp = Ptr a ∧ ∃ n, hl !! a = Some n ∧ next n = q ∧ chain hc (data n) cs.
Proof.
  intros (m & lm & H1 & H2)%dseg_split. simpl in H2.
  destruct H2 as (-> & n & Hn & Hp & Hch & Hq & ->). eauto.
Qed.

Lemma dseg_allocated hl hc pv p q lastp ls a :
  dseg hl hc pv p q lastp ls → a ∈ ls.*1 → is_Some (hl !! a).
Proof.
  revert pv p. induction ls as [|[b cs] ls IH]; simpl; intros pv p.
  - intros _ Hin. by apply elem_of_nil in Hin.
  - intros (-> & n & Hn & Hp & Hch & Hseg) [->|Hin]%elem_of_cons; eauto.
Qed.

(** Redirecting the [next] of the last line of a segment. *)
Lemma dseg_set_last_next hl hc pv p q q' lastp ls a cs n :
  dseg hl hc pv p q lastp (ls ++ [(a, cs)]) → a ∉ ls.*1 → hl !! a = Some n →
  dseg (<[a := with_next q' n]> hl) hc pv p q' lastp (ls ++ [(a, cs)]).
Proof.
  intros (m & lm & H1 & H2)%dseg_split Hnin Hn. eapply dseg_app.
  - eapply dseg_frame; [| |exact H1]; [|done].
    intros b Hb. rewrite lookup_insert_ne; [done|]. intros ->. done.
  - simpl in *. destruct H2 as (-> & n' & Hn' & Hp & Hch & Hq & ->). simplify_eq.
    split; [done|]. eexists. rewrite lookup_insert_eq. split; [done|]. simpl. done.
Qed.

(** Redirecting the [prev] of the first line of a segment. *)
Lemma dseg_set_head_prev hl hc pv pv' q lastp ls a cs n :
  dseg hl hc pv (Ptr a) q lastp ((a, cs) :: ls) → a ∉ ls.*1 → hl !! a = Some n →
  ∃ lastp', dseg (<[a := with_prev pv' n]> hl) hc pv' (Ptr a) q lastp' ((a, cs) :: ls) ∧
            (ls ≠ [] → lastp' = lastp).
Proof.
  simpl. intros (_ & n' & Hn' & Hp & Hch & Hseg) Hnin Hn. simplify_eq.
  exists (match ls with [] => Ptr a | _ => lastp end). split.
  - split; [done|]. eexists. rewrite lookup_insert_eq. split; [done|]. simpl.
    split_and!; [done..|]. destruct ls as [|[b cs'] ls].
    + simpl in *. destruct Hseg as [-> _]. done.
    + eapply dseg_frame; [| |exact Hseg]; [|done].
      intros c Hc. rewrite lookup_insert_ne; [done|]. intros ->. done.
  - by destruct ls.
Qed.
End Segments.

Arguments dseg : simpl never.

Lemma dseg_before hl hc s a pa l1 :
  dseg hl hc NULL s (Ptr a) pa l1 → NoDup l1.*1 →
  (l1 = [] ∧ s = Ptr a ∧ pa = NULL) ∨
  (∃ l1' p pcs np s0, l1 = l1' ++ [(p, pcs)] ∧ pa = Ptr p ∧ hl !! p = Some np ∧
      next np = Ptr a ∧ (p ∉ l1'.*1) ∧ s = Ptr s0 ∧ s0 ∈ l1.*1).
Proof.
  intros Hseg Hnd. destruct l1 as [|x l1 _] using rev_ind.
  - left. destruct Hseg as [-> ->]. done.
  - right. destruct x as [p pcs]. destruct (dseg_last _ _ _ _ _ _ _ _ _ Hseg) as (-> & np & Hnp & Hnext & _).
    rewrite fmap_app in Hnd. apply NoDup_app in Hnd as (_ & Hdisj & _).
    assert (∃ s0, s = Ptr s0 ∧ s0 ∈ (l1 ++ [(p, pcs)]).*1) as (s0 & -> & Hs0).
    { destruct l1 as [|[b bcs] l1]; destruct Hseg as (-> & _); eexists; (split; [done|]); simpl; by left. }
    exists l1, p, pcs, np, s0. split_and!; try done.
    intros Hin. apply (Hdisj p Hin). simpl. by left.
Qed.

Lemma dseg_after hl hc a na lastp l2 :
  dseg hl hc (Ptr a) na NULL lastp l2 →
  (l2 = [] ∧ na = NULL) ∨
  (∃ n ncs l2' nn, l2 = (n, ncs) :: l2' ∧ na = Ptr n ∧ hl !! n = Some nn ∧ prev nn = Ptr a).
Proof.
  destruct l2 as [|[n ncs] l2]; cbn [dseg].
  - intros [-> _]. by left.
  - intros (-> & nn & Hnn & Hp & _). right. eauto 10.
Qed.

Lemma dseg_reachable hl hc a n l1 : ∀ pv p lastp,
  dseg hl hc pv p (Ptr a) lastp l1 → hl !! a = Some n → reachable hl p a.
Proof.
  induction l1 as [|[b bcs] l1 IH]; intros pv p lastp.
  - intros [-> _] Hn. by eapply reachable_here.
  - intros (-> & nb & Hnb & _ & _ & Hseg) Hn. eapply reachable_next; [done|]. by eapply IH.
Qed.

(** ** Well-formed buffers *)

(** [wf] looks only at the heaps, [start] and [brk]. *)
Lemma wf_env st st' ls :
  wf st ls → mem_line st' = mem_line st → mem_character st' = mem_character st →
  start st' = start st → brk st' = brk st → wf st' ls.
Proof.
  intros [Hseg Hl Hc Hbl Hbc] El Ec Es Eb.
  constructor; rewrite ?El, ?Ec, ?Es, ?Eb; done.
Qed.

Lemma wf_same_heap st st' ls : wf st ls → same_heap st st' → wf st' ls.
Proof. intros Hwf (? & ? & ? & ? & ?). by eapply wf_env. Qed.

Lemma cursor_at_same_heap st st' ls : cursor_at st ls → same_heap st st' → cursor_at st' ls.
Proof. intros Hcur (? & ? & ? & Hl & ?). unfold cursor_at. by rewrite Hl. Qed.

Lemma wf_line_lt st ls a : wf st ls → a ∈ ls.*1 → (a < brk st)%positive.
Proof.
  intros [[lastp Hseg] _ _ Hbl _] Hin. apply Hbl. eapply dseg_allocated; eauto.
Qed.

Lemma wf_length_fuel st ls : wf st ls → (length ls < line_fuel st)%nat.
Proof.
  intros [[lastp Hseg] Hnd _ _ _]. unfold line_fuel.
  apply (NoDup_allocated_length (mem_line st)) in Hnd.
  - rewrite length_fmap in Hnd. lia.
  - intros a Ha. eapply dseg_allocated; eauto.
Qed.

Lemma wf_zipper st l1 a cs l2 :
  wf st (l1 ++ (a, cs) :: l2) →
  ∃ nd lastp, mem_line st !! a = Some nd ∧ chain (mem_character st) (data nd) cs ∧
    dseg (mem_line st) (mem_character st) NULL (start st) (Ptr a) (prev nd) l1 ∧
    dseg (mem_line st) (mem_character st) (Ptr a) (next nd) NULL lastp l2 ∧
    NoDup l1.*1 ∧ NoDup l2.*1 ∧ (a ∉ l1.*1) ∧ (a ∉ l2.*1) ∧ (∀ b, b ∈ l1.*1 → b ∉ l2.*1).
Proof.
  intros [[lastp Hseg] Hnd _ _ _].
  apply dseg_split in Hseg as (m & lm & H1 & H2).
  destruct H2 as (-> & nd & Hnd' & <- & Hch & H2).
  rewrite fmap_app, fmap_cons in Hnd. simpl in Hnd.
  apply NoDup_app in Hnd as (Hnd1 & Hdisj & Hnd2). apply NoDup_cons in Hnd2 as [Ha2 Hnd2].
  exists nd, lastp. split_and!; try done.
  - intros Hin. apply (Hdisj a Hin). by left.
  - intros b Hb Hb2. apply (Hdisj b Hb). by right.
Qed.

Lemma wf_cursor_node st l1 a cs l2 :
  wf st (l1 ++ (a, cs) :: l2) →
  ∃ nd, mem_line st !! a = Some nd ∧ prev nd = ptr_of (last l1) ∧
        next nd = ptr_of (head l2) ∧ chain (mem_character st) (data nd) cs.
Proof.
  intros Hwf. destruct (wf_zipper _ _ _ _ _ Hwf) as
    (nd & lastp & Hnd & Hch & H1 & H2 & Hnd1 & _).
  exists nd. split_and!; try done.
  - destruct (dseg_before _ _ _ _ _ _ H1 Hnd1) as
      [(-> & _ & ->)|(l1' & p & pcs & np & s0 & -> & -> & _)]; [done|].
    by rewrite last_snoc.
  - destruct (dseg_after _ _ _ _ _ _ H2) as
      [(-> & ->)|(n & ncs & l2' & nn & -> & -> & _)]; done.
Qed.

Lemma NoDup_fst_split (ls : list (loc * list (loc * ascii))) a :
  NoDup ls.*1 → a ∈ ls.*1 → ∃ l1 cs l2, ls = l1 ++ (a, cs) :: l2 ∧ a ∉ l1.*1.
Proof.
  intros Hnd ([a' cs] & Heq & Hin)%list_elem_of_fmap. simpl in Heq. subst a'.
  apply list_elem_of_split in Hin as (l1 & l2 & ->). exists l1, cs, l2. split; [done|].
  rewrite fmap_app, fmap_cons in Hnd. apply NoDup_app in Hnd as (_ & Hd & _).
  intros Hin. apply (Hd a Hin). by left.
Qed.

Lemma NoDup_app_middle {A} (l1 m l2 : list A) :
  NoDup (l1 ++ m ++ l2) →
  NoDup (l1 ++ l2) ∧ (∀ x, x ∈ m → (x ∉ l1) ∧ (x ∉ l2)).
Proof.
  intros (H1 & Hd & H2)%NoDup_app. apply NoDup_app in H2 as (Hm & Hd2 & H2).
  split.
  - apply NoDup_app. split_and!; [done| |done].
    intros x Hx Hx2. apply (Hd x Hx). apply elem_of_app. by right.
  - intros x Hx. split; [|by apply Hd2].
    intros Hx1. apply (Hd x Hx1). apply elem_of_app. by left.
Qed.

Lemma inv_cursor_allocated st a :
  inv st → lines st = Ptr a →
  ∃ nd, mem_line st !! a = Some nd ∧ next nd ≠ Undef ∧ prev nd ≠ Undef.
Proof.
  intros (ls & Hwf & Hcur) Ha.
  destruct Hcur as [Hc|(a' & Hc & Hin)]; [congruence|].
  assert (a' = a) as -> by congruence. clear Hc.
  pose proof (wf_lines_NoDup _ _ Hwf) as Hndp.
  destruct (NoDup_fst_split ls a Hndp Hin) as (l1 & cs & l2 & -> & Hnin1).
  destruct (wf_cursor_node _ _ _ _ _ Hwf) as (nd & Hnd & Hprev & Hnext & _).
  exists nd. rewrite Hprev, Hnext. split_and!; [done| |].
  - by destruct (head l2) as [[? ?]|].
  - by destruct (last l1) as [[? ?]|].
Qed.

Lemma inv_cursor_inv st : inv st → cursor_inv st.
Proof.
  intros (ls & Hwf & Hcur). split.
  { destruct Hcur as [Hc|(a & Hc & _)]; congruence. }
  intros a Ha.
  destruct Hcur as [Hc|(a' & Hc & Hin)]; [congruence|].
  assert (a' = a) as -> by congruence. clear Hc.
  pose proof (wf_lines_NoDup _ _ Hwf) as Hndp.
  destruct (NoDup_fst_split ls a Hndp Hin) as (l1 & cs & l2 & -> & Hnin1).
  destruct (wf_zipper _ _ _ _ _ Hwf) as (nd & lastp & Hnd & _ & H1 & _).
  split; [by eapply dseg_reachable|].
  destruct Hwf as [[lastp' Hseg] _ _ _ _].
  destruct l1 as [|[s scs] l1]; destruct Hseg as (-> & n & Hn & Hp & _); eauto.
Qed.

(** ** Checking a concrete state *)

Lemma chain_check_sound hc cells : ∀ p, chain_check hc p cells = true → chain hc p cells.
Proof.
  unfold chain. induction cells as [|[a x] cells IH]; intros p; simpl.
  - by intros ?%bool_decide_eq_true.
  - destruct (hc !! a) as [n|] eqn:Hn; [|done].
    intros [[Hp Hc]%andb_true_iff Hrest]%andb_true_iff.
    apply bool_decide_eq_true in Hp, Hc. split; [done|]. exists n. eauto.
Qed.

Lemma dseg_check_sound hl hc q lastp ls : ∀ pv p,
  dseg_check hl hc pv p q lastp ls = true → dseg hl hc pv p q lastp ls.
Proof.
  induction ls as [|[a cells] ls IH]; intros pv p; simpl.
  - intros [Hp Hl]%andb_true_iff. apply bool_decide_eq_true in Hp, Hl. done.
  - destruct (hl !! a) as [n|] eqn:Hn; [|done].
    intros [[[Hp Hpv]%andb_true_iff Hch]%andb_true_iff Hrest]%andb_true_iff.
    apply bool_decide_eq_true in Hp, Hpv. apply chain_check_sound in Hch.
    split; [done|]. exists n. eauto.
Qed.

Lemma wf_check_sound st ls : wf_check st ls = true → wf st ls.
Proof.
  unfold wf_check.
  intros [[[[Hseg Hl]%andb_true_iff Hc]%andb_true_iff Hbl]%andb_true_iff Hbc]%andb_true_iff.
  apply bool_decide_eq_true in Hl, Hc, Hbl, Hbc. apply dseg_check_sound in Hseg.
  constructor; try done.
  - eauto.
  - intros a [n Hn]. by apply (Hbl a n).
  - intros a [n Hn]. by apply (Hbc a n).
Qed.

(** ** Destruction and deletion *)

Lemma lookup_free_cells addrs : ∀ hc a,
  free_cells addrs hc !! a = if decide (a ∈ addrs) then None else hc !! a.
Proof.
  unfold free_cells. induction addrs as [|b addrs IH]; intros hc a; cbn [foldl].
  - rewrite decide_False; [done|]. apply not_elem_of_nil.
  - rewrite IH. destruct (decide (a ∈ addrs)) as [Hin|Hnin].
    + rewrite decide_True; [done|]. by right.
    + rewrite lookup_delete. destruct (decide (b = a)) as [->|Hne].
      * rewrite decide_True; [done|]. by left.
      * rewrite decide_False; [done|]. intros [?|?]%elem_of_cons; congruence.
Qed.

Lemma destroy_chars_loop_spec cells : ∀ fuel p st,
  chain (mem_character st) p cells → (length cells < fuel)%nat →
  destroy_chars_loop fuel p st
  = Ret (set_mem_character (free_cells cells.*1 (mem_character st)) st).
Proof.
  induction cells as [|[a x] cells IH]; intros [|fuel] p st Hch Hlt; simpl in Hlt; try lia.
  - unfold chain in Hch. simpl in Hch. subst p. simpl. by destruct st.
  - pose proof (chain_NoDup _ _ _ Hch) as Hnd. simpl in Hnd. apply NoDup_cons in Hnd as [Hnin Hnd].
    unfold chain in Hch. simpl in Hch. destruct Hch as (-> & n & Hn & Hc & Hseg).
    cbn [destroy_chars_loop is_null mbind res_bind].
    rw load_character_Some. rw free_character_Some.
    rewrite IH; [done| |lia]. simpl.
    eapply cseg_frame; [|exact Hseg]. intros b Hb. rewrite lookup_delete_ne; [done|].
    intros ->. done.
Qed.

Lemma destroy_chars_spec cells p st :
  chain (mem_character st) p cells →
  destroy_chars p st = Ret (set_mem_character (free_cells cells.*1 (mem_character st)) st).
Proof.
  intros Hch. apply destroy_chars_loop_spec; [done|]. by eapply chain_length_fuel.
Qed.

Lemma destroy_line_spec a n cells st :
  mem_line st !! a = Some n → chain (mem_character st) (data n) cells →
  destroy_line (Ptr a) st
  = Ret (set_mem_line (delete a (mem_line st))
           (set_mem_character (free_cells cells.*1 (mem_character st)) st)).
Proof.
  intros Hn Hch. unfold destroy_line. erewrite load_data_Some by done.
  cbn [mbind res_bind]. erewrite destroy_chars_spec by done. cbn [mbind res_bind].
  rw free_line_Some. done.
Qed.

Lemma delete_line_spec st l1 a cs l2 :
  wf st (l1 ++ (a, cs) :: l2) →
  ∃ st', delete_line (Ptr a) st = Ret (new_current l1 l2, st') ∧
    wf st' (l1 ++ l2) ∧
    st' = set_start (start st') (set_mem_line (mem_line st')
            (set_mem_character (mem_character st') st)) ∧
    start st' = match l1 with [] => ptr_of (head l2) | _ => start st end ∧
    mem_line st' !! a = None.
Proof.
  intros Hwf. pose proof (wf_zipper _ _ _ _ _ Hwf) as
    (nd & lastp & Hnd & Hch & H1 & H2 & Hnd1 & Hnd2 & Ha1 & Ha2 & Hdisj).
  destruct Hwf as [_ HNDl HNDc Hbl Hbc].
  assert (HNDl' : NoDup (l1 ++ l2).*1).
  { rewrite fmap_app. apply NoDup_app. done. }
  rewrite cell_addrs_app, cell_addrs_cons in HNDc.
  apply NoDup_app_middle in HNDc as [HNDc' Hcs]. rewrite <- cell_addrs_app in HNDc'.
  assert (Hfc : ∀ b, b ∈ cell_addrs (l1 ++ l2) →
                  free_cells cs.*1 (mem_character st) !! b = mem_character st !! b).
  { intros b Hb. rewrite lookup_free_cells. rewrite decide_False; [done|].
    intros Hin. destruct (Hcs b Hin) as [Hn1 Hn2].
    rewrite cell_addrs_app in Hb. apply elem_of_app in Hb as [?|?]; done. }
  assert (Hbc' : ∀ b, is_Some (free_cells cs.*1 (mem_character st) !! b) → (b < brk st)%positive).
  { intros b. rewrite lookup_free_cells. case_decide; [by intros [? ?]|apply Hbc]. }
  unfold delete_line. cbn [is_null mbind res_bind].
  destruct (dseg_before _ _ _ _ _ _ H1 Hnd1) as
    [(-> & Hs & Hpa)|(l1' & p & pcs & np & s0 & -> & Hpa & Hnp & Hnpn & Hp1 & Hs & Hs0)];
  destruct (dseg_after _ _ _ _ _ _ H2) as
    [(-> & Hna)|(n & ncs & l2' & nn & -> & Hna & Hnn & Hnnp)].
  - (* the only line *)
    rewrite Hs. simpl. rewrite bool_decide_true by done.
    rw load_line_Some. rw load_line_Some. rewrite Hna. simpl.
    rw load_line_Some. rewrite Hpa. simpl. rw load_line_Some. rewrite Hna, Hpa. simpl.
    erewrite destroy_line_spec; [|look|simpl; exact Hch]. simpl.
    eexists. split; [reflexivity|]. split_and!; try done; [|apply lookup_delete_eq].
    constructor; simpl; try done.
    + by exists NULL.
    + intros b. rewrite lookup_delete. case_decide; [by intros [? ?]|apply Hbl].
  - (* the first line, others follow *)
    assert (a ≠ n) by (intros ->; apply Ha2; simpl; by left).
    rewrite Hs. simpl. rewrite bool_decide_true by done.
    rw load_line_Some. rw load_line_Some. rewrite Hna. simpl.
    rw store_line_Some. rw load_line_Some. rewrite Hpa. simpl.
    rw load_line_Some. rewrite Hna. simpl.
    erewrite destroy_line_spec; [|look|simpl; exact Hch]. simpl.
    eexists. split; [reflexivity|]. split_and!; try done; [|apply lookup_delete_eq].
    constructor; simpl; try done.
    + rewrite fmap_cons in Hnd2. apply NoDup_cons in Hnd2 as [Hn2 _]. rewrite Hna in H2.
      destruct (dseg_set_head_prev _ _ _ NULL _ _ _ _ _ _ H2 Hn2 Hnn) as (lastp' & H2' & _).
      exists lastp'. eapply dseg_frame; [| |exact H2'].
      * intros b Hb. rewrite lookup_delete_ne; [done|]. intros ->. done.
      * intros b Hb. by apply Hfc.
    + intros b. rewrite lookup_delete, lookup_insert.
      repeat case_decide; subst; [by intros [? ?]|eauto|apply Hbl].
  - (* the last line, others precede *)
    assert (a ≠ p) by (intros ->; apply Ha1; rewrite fmap_app; apply elem_of_app; right; simpl; by left).
    assert (s0 ≠ a) by (intros ->; done).
    rewrite Hs. simpl. rewrite bool_decide_false by congruence. simpl.
    rw load_line_Some. rewrite Hna. simpl.
    rw load_line_Some. rewrite Hpa. simpl. rw store_line_Some.
    rw load_line_Some. rewrite Hna, Hpa. simpl.
    erewrite destroy_line_spec; [|look|simpl; exact Hch]. simpl.
    unfold new_current. rewrite last_snoc. rewrite app_nil_r.
    eexists. split; [reflexivity|]. split_and!; try done.
    2:{ simpl. by destruct l1'. }
    2:{ apply lookup_delete_eq. }
    rewrite app_nil_r in HNDl', Hfc, HNDc'.
    constructor; simpl; try done.
    + rewrite Hna, Hpa in *.
      pose proof (dseg_set_last_next _ _ _ _ _ NULL _ _ _ _ _ H1 Hp1 Hnp) as H1'.
      exists (Ptr p). eapply dseg_frame; [| |exact H1'].
      * intros b Hb. rewrite lookup_delete_ne; [done|]. intros ->. done.
      * done.
    + intros b. rewrite lookup_delete, lookup_insert.
      repeat case_decide; subst; [by intros [? ?]|eauto|apply Hbl].
  - (* a line in the middle *)
    assert (a ≠ p) by (intros ->; apply Ha1; rewrite fmap_app; apply elem_of_app; right; simpl; by left).
    assert (a ≠ n) by (intros ->; apply Ha2; simpl; by left).
    assert (p ≠ n).
    { intros ->. eapply Hdisj; [|simpl; by left]. rewrite fmap_app. apply elem_of_app. right. simpl. by left. }
    assert (s0 ≠ a) by (intros ->; done).
    rewrite Hs. simpl. rewrite bool_decide_false by congruence. simpl.
    rw load_line_Some. rewrite Hna. simpl. rw store_line_Some.
    rw load_line_Some. rewrite Hpa. simpl. rw store_line_Some.
    rw load_line_Some. rewrite Hna. simpl.
    erewrite destroy_line_spec; [|look|simpl; exact Hch]. simpl.
    unfold new_current. rewrite last_snoc.
    eexists. split; [reflexivity|]. split_and!; try done.
    2:{ simpl. by destruct l1'. }
    2:{ apply lookup_delete_eq. }
    constructor; simpl; try done.
    + rewrite Hna, Hpa in *.
      rewrite fmap_cons in Hnd2. apply NoDup_cons in Hnd2 as [Hn2 _].
      destruct (dseg_set_head_prev _ _ _ (Ptr p) _ _ _ _ _ _ H2 Hn2 Hnn) as (lastp' & H2' & _).
      assert (H1' : dseg (<[n:=with_prev (Ptr p) nn]> (mem_line st)) (mem_character st)
                      NULL (start st) (Ptr a) (Ptr p) (l1' ++ [(p, pcs)])).
      { eapply dseg_frame; [| |exact H1]; [|done].
        intros b Hb. rewrite lookup_insert_ne; [done|]. intros ->.
        eapply Hdisj; [exact Hb|]. simpl. by left. }
      eapply (dseg_set_last_next _ _ _ _ _ (Ptr n)) in H1'; [|done|by rewrite lookup_insert_ne].
      exists lastp'. eapply dseg_app.
      * eapply dseg_frame; [| |exact H1'].
        -- intros b Hb. rewrite lookup_delete_ne; [done|]. intros ->. done.
        -- intros b Hb. apply Hfc. rewrite cell_addrs_app. apply elem_of_app. by left.
      * eapply dseg_frame; [| |exact H2'].
        -- intros b Hb. rewrite lookup_delete_ne by (intros ->; done).
           rewrite lookup_insert_ne; [done|]. intros ->.
           eapply Hdisj; [|exact Hb]. rewrite fmap_app. apply elem_of_app. right. simpl. by left.
        -- intros b Hb. apply Hfc. rewrite cell_addrs_app. apply elem_of_app. by right.
    + intros b. rewrite lookup_delete, !lookup_insert.
      repeat case_decide; subst; [by intros [? ?]|eauto..|apply Hbl].
Qed.

Lemma new_current_cursor st l1 l2 :
  cursor_at (set_lines (new_current l1 l2) st) (l1 ++ l2).
Proof.
  unfold cursor_at, new_current. simpl.
  destruct (last l1) as [[p pcs]|] eqn:Hlast.
  - right. exists p. split; [done|]. rewrite fmap_app. apply elem_of_app. left.
    apply last_Some in Hlast as [l' ->]. rewrite fmap_app. apply elem_of_app. right. simpl. by left.
  - destruct l2 as [|[n ncs] l2]; simpl; [by left|].
    right. exists n. split; [done|]. rewrite fmap_app. apply elem_of_app. right. simpl. by left.
Qed.

(** ** Insertion *)

Arguments insert_line_link : simpl never.
Arguments charray_to_line : simpl never.

Lemma last_addr_cons a b cells news : last_addr a ((b, cells) :: news) = last_addr b news.
Proof.
  unfold last_addr. rewrite last_cons. by destruct (last news).
Qed.

(** More memory handed out leaves a buffer as it is. *)
Lemma wf_grow st st' ls :
  wf st ls → mem_line st' = mem_line st → mem_character st' = mem_character st →
  start st' = start st → (brk st ≤ brk st')%positive → wf st' ls.
Proof.
  intros [Hseg Hl Hc Hbl Hbc] El Ec Es Eb.
  constructor; rewrite ?El, ?Ec, ?Es; try done.
  - intros a Ha. specialize (Hbl a Ha). lia.
  - intros a Ha. specialize (Hbc a Ha). lia.
Qed.

Lemma store_character_small a f st :
  mem_character st !! a = None → store_character (Ptr a) f st = Fault.
Proof. unfold store_character. by intros ->. Qed.

Lemma store_c_small a x v st :
  mem_character st !! a = None → small_character st !! a = Some v →
  store_c (Ptr a) x st = Ret (set_small_character (<[a := Some x]> (small_character st)) st).
Proof. unfold store_c. by intros -> ->. Qed.

(** [charray_to_line] leaves its first block.  The block [chars] has the
    size of a pointer; the store to [idx->c] is inside it, and the next
    store, to [idx->next] (in [APPEND_LL], or after the loop when the line
    is empty), is not. *)
Lemma charray_to_line_Fault dest src st :
  mem_character st !! brk st = None → charray_to_line dest src st = Fault.
Proof.
  intros Hfresh. unfold charray_to_line, ALLOC_LL_character.
  set (st1 := set_brk _ _).
  assert (H1 : mem_character st1 !! brk st = None) by done.
  assert (H2 : small_character st1 !! brk st = Some None) by apply lookup_insert_eq.
  assert (Hend : ∀ src', at_terminator src' = true →
            charray_to_line_finish src' (Ptr (brk st)) st1 = Fault).
  { intros src' Hterm. unfold charray_to_line_finish. rewrite Hterm.
    erewrite store_c_small by done. cbn [mbind res_bind].
    by apply store_character_small. }
  clearbody st1.
  destruct src as [|x src]; cbn [charray_to_line_loop mbind res_bind].
  - by rewrite Hend.
  - destruct (Ascii.eqb x nl || Ascii.eqb x NUL) eqn:Hx; cbn [mbind res_bind].
    + by rewrite Hend.
    + erewrite store_c_small by done. cbn [mbind res_bind].
      unfold APPEND_LL_character, ALLOC_LL_character.
      rewrite store_character_small; done.
Qed.


Lemma insert_line_loop_cancel_at_poll st pending input sig :
  stop_insertion st = 0 → sigint st = false :: true :: sig →
  insert_line_loop (pending :: input) st
  = Ret (set_stop_insertion 1 (set_sigint sig (set_stdin input (ALLOC_LL_line st).2))).
Proof.
  intros Hstop Hsig. destruct input; cbn [insert_line_loop];
    unfold read_stop_insertion at 1; rewrite Hsig; simpl; rewrite Hstop; simpl; done.
Qed.

Lemma insert_line_loop_cancel_at_guard st input sig :
  sigint st = true :: sig →
  insert_line_loop input st = Ret (set_stop_insertion 1 (set_sigint sig st)).
Proof.
  intros Hsig. destruct input; cbn [insert_line_loop];
    unfold read_stop_insertion at 1; rewrite Hsig; simpl; done.
Qed.

Lemma insert_line_loop_end_of_input st :
  stop_insertion st = 0 → head (sigint st) ≠ Some true →
  insert_line_loop [] st
  = Exit EXIT_FAILURE (ALLOC_LL_line (set_sigint (drop 1 (sigint st)) st)).2.
Proof.
  intros Hstop Hsig. cbn [insert_line_loop]. unfold read_stop_insertion.
  destruct (sigint st) as [|[] sig] eqn:E; simpl in *; try done; rewrite Hstop; simpl;
    [by destruct st; simpl in *; subst|done].
Qed.

(** With no SIGINT by the poll after a read, the line read is committed,
    and [charray_to_line] leaves its block. *)
Lemma insert_line_loop_commit st pending input :
  (∀ a, is_Some (mem_character st !! a) → (a < brk st)%positive) →
  stop_insertion st = 0 →
  sigint st !! 0%nat ≠ Some true → sigint st !! 1%nat ≠ Some true →
  insert_line_loop (pending :: input) st = Fault.
Proof.
  intros Hbelow Hstop H0 H1.
  assert (Hfresh : mem_character st !! Pos.succ (brk st) = None).
  { destruct (mem_character st !! Pos.succ (brk st)) eqn:E; [|done].
    specialize (Hbelow (Pos.succ (brk st)) (mk_is_Some _ _ E)). lia. }
  cbn [insert_line_loop]. unfold read_stop_insertion.
  destruct (sigint st) as [|[] [|[] sig]] eqn:E; simpl in *; try done;
    rewrite Hstop; simpl; rewrite ?E; simpl; rewrite ?Hstop; simpl;
    rewrite charray_to_line_Fault; done.
Qed.

(** ** Output *)

Lemma fputs_fput_state s file st :
  can_write file st → fputs s file st = Ret (fput_state s file st).
Proof.
  destruct file as [| |fname]; simpl; try done.
  intros (r & w & contents & ->). done.
Qed.

Lemma fput_state_same_heap s file st : same_heap st (fput_state s file st).
Proof.
  destruct file as [| |fname]; simpl; try done.
  destruct (fs st !! fname) as [[]|]; done.
Qed.

Lemma fput_state_can_write s file st : can_write file st → can_write file (fput_state s file st).
Proof.
  destruct file as [| |fname]; simpl; try done.
  intros (r & w & contents & ->). simpl. rewrite lookup_insert_eq. eauto.
Qed.

Lemma fput_state_nil file st : fput_state [] file st = st.
Proof.
  destruct file as [| |fname]; simpl.
  - rewrite app_nil_r. by destruct st.
  - rewrite app_nil_r. by destruct st.
  - destruct (fs st !! fname) as [[r w contents|]|] eqn:Hf; try done.
    rewrite app_nil_r, insert_id by done. by destruct st.
Qed.

Lemma fput_state_app s1 s2 file st :
  fput_state s2 file (fput_state s1 file st) = fput_state (s1 ++ s2) file st.
Proof.
  destruct file as [| |fname]; simpl.
  - by rewrite app_assoc.
  - by rewrite app_assoc.
  - destruct (fs st !! fname) as [[r w contents|]|] eqn:Hf; simpl; rewrite ?Hf; try done.
    rewrite lookup_insert_eq. simpl. by rewrite insert_insert_eq, app_assoc.
Qed.

Arguments lines_to_charray : simpl never.
Arguments fputs : simpl never.

Lemma lines_to_handle_loop_spec file ls : ∀ fuel pv p lastp st,
  dseg (mem_line st) (mem_character st) pv p NULL lastp ls →
  (length ls < fuel)%nat → can_write file st →
  lines_to_handle_loop fuel file p st
  = Ret (fput_state (concat (printed <$> ls)) file st).
Proof.
  induction ls as [|[a cs] ls IH]; intros [|fuel] pv p lastp st Hseg Hlt Hw;
    simpl in Hlt; try lia.
  - destruct Hseg as [-> _]. simpl. by rewrite fput_state_nil.
  - destruct Hseg as (-> & n & Hn & Hp & Hch & Hseg).
    cbn [lines_to_handle_loop is_null mbind res_bind].
    erewrite lines_to_charray_spec by done. cbn [mbind res_bind].
    replace (cs.*2 ++ [nl; NUL]) with ((cs.*2 ++ [nl]) ++ [NUL]) by by rewrite <- app_assoc.
    rewrite c_str_until_NUL. cbn [mbind res_bind].
    rewrite fputs_fput_state by done. cbn [mbind res_bind].
    destruct (fput_state_same_heap (until_NUL (cs.*2 ++ [nl])) file st) as (El & Ec & _).
    erewrite load_line_Some by (rewrite El; done). cbn [mbind res_bind].
    erewrite IH; [|rewrite El, Ec; exact Hseg|lia|by apply fput_state_can_write].
    rewrite fput_state_app. done.
Qed.

Lemma lines_to_handle_spec file st ls :
  wf st ls → can_write file st →
  lines_to_handle file (start st) st = Ret (fput_state (concat (printed <$> ls)) file st).
Proof.
  intros Hwf Hw. pose proof (wf_length_fuel _ _ Hwf) as Hfuel.
  destruct Hwf as [[lastp Hseg] _ _ _ _].
  unfold lines_to_handle. by eapply lines_to_handle_loop_spec.
Qed.

Lemma print_chars_loop_spec cells : ∀ fuel p st,
  chain (mem_character st) p cells → (length cells < fuel)%nat →
  print_chars_loop fuel p st = Ret (fput_state cells.*2 Stdout st).
Proof.
  induction cells as [|[a x] cells IH]; intros [|fuel] p st Hch Hlt; simpl in Hlt; try lia.
  - unfold chain in Hch. simpl in Hch. subst p. simpl. rewrite app_nil_r. by destruct st.
  - unfold chain in Hch. simpl in Hch. destruct Hch as (-> & n & Hn & Hc & Hseg).
    cbn [print_chars_loop is_null mbind res_bind].
    erewrite load_character_Some by done. cbn [mbind res_bind]. rewrite Hc.
    rewrite fputs_fput_state by done. cbn [mbind res_bind].
    rewrite IH; [|exact Hseg|lia]. rewrite fput_state_app. done.
Qed.

Lemma print_line_spec st l1 a cs l2 :
  wf st (l1 ++ (a, cs) :: l2) →
  print_line (Ptr a) st = Ret (fput_state (cs.*2 ++ [nl]) Stdout st).
Proof.
  intros Hwf. destruct (wf_zipper _ _ _ _ _ Hwf) as (nd & lastp & Hnd & Hch & _).
  unfold print_line. cbn [is_null mbind res_bind].
  erewrite load_data_Some by done. cbn [mbind res_bind].
  unfold print_chars. rewrite (print_chars_loop_spec cs); [|done|by eapply chain_length_fuel].
  cbn [mbind res_bind]. rewrite fputs_fput_state by done. by rewrite fput_state_app.
Qed.

(** ** Loading a file *)


Arguments delete_line : simpl never.
Arguments print_line : simpl never.
Arguments insert_line : simpl never.
Arguments lines_to_handle : simpl never.
Arguments write_lines : simpl never.
Arguments usage : simpl never.

(** ** Scanning a command line *)

Lemma run_instructions_unrecognized fname x s st :
  unrecognized x → run_instructions fname (x :: s) st = run_instructions fname s st.
Proof.
  intros [Hterm Hcmd]. cbn [run_instructions].
  unfold at_terminator in Hterm. simpl in Hterm. rewrite Hterm.
  unfold commands in Hcmd.
  repeat match goal with
  | |- context [if Ascii.eqb x ?y then _ else _] =>
      destruct (Ascii.eqb_spec x y) as [->|?];
      [exfalso; apply Hcmd; repeat (first [by left | right])|]
  end.
  done.
Qed.

(** Commands run left to right: once a prefix without terminator has run
    to its end, the rest runs from the state it left. *)
Lemma run_instructions_app fname pre : ∀ s st st1,
  Forall (λ y, at_terminator [y] = false) pre →
  run_instructions fname pre st = Ret (0, st1) →
  run_instructions fname (pre ++ s) st = run_instructions fname s st1.
Proof.
  induction pre as [|x pre IH]; intros s st st1 Hpre Hrun.
  - simpl in Hrun. by simplify_eq.
  - apply Forall_cons in Hpre as [Hx Hpre]. unfold at_terminator in Hx. simpl in Hx.
    rewrite <- app_comm_cons. cbn [run_instructions] in *. rewrite Hx in *.
    repeat match goal with
    | |- context [if Ascii.eqb x ?y then _ else _] => destruct (Ascii.eqb x y)
    end;
    repeat match goal with
    | H : Ret _ = Ret _ |- _ => by simplify_eq
    | H : run_instructions _ pre _ = Ret _ |- _ => by apply IH
    | H : mbind _ ?m = Ret _ |- _ => destruct m as [?| | |]; cbn [mbind res_bind] in *; try done
    | H : (if ?b then _ else _) = Ret _ |- _ => destruct b
    | H : (let (_, _) := ?p in _) = Ret _ |- _ => destruct p
    end.
Qed.

(** A signal other than 0 comes from a [q], or from an [n] or [b] that
    cannot move, met after the commands before it have all run. *)
Lemma run_instructions_signal fname s : ∀ st r st',
  run_instructions fname s st = Ret (r, st') → r ≠ 0 →
  ∃ pre x post,
    s = pre ++ x :: post ∧ Forall (λ y, at_terminator [y] = false) pre ∧
    run_instructions fname pre st = Ret (0, st') ∧
    ((x = "n"%char ∧ r = -1 ∧ cannot_advance st') ∨
     (x = "b"%char ∧ r = -2 ∧ cannot_retreat st') ∨
     (x = "q"%char ∧ r = -3)).
Proof.
  induction s as [|x s IH]; intros st r st' Hrun Hr; [simpl in Hrun; by simplify_eq|].
  assert (Hstep : ∀ st2,
    at_terminator [x] = false →
    run_instructions fname s st2 = Ret (r, st') →
    (∀ pre, run_instructions fname pre st2 = Ret (0, st') →
            run_instructions fname (x :: pre) st = Ret (0, st')) →
    ∃ pre x0 post,
      x :: s = pre ++ x0 :: post ∧ Forall (λ y, at_terminator [y] = false) pre ∧
      run_instructions fname pre st = Ret (0, st') ∧
      ((x0 = "n"%char ∧ r = -1 ∧ cannot_advance st') ∨
       (x0 = "b"%char ∧ r = -2 ∧ cannot_retreat st') ∨
       (x0 = "q"%char ∧ r = -3))).
  { intros st2 Hx Hrun2 Hpre.
    destruct (IH st2 r st' Hrun2 Hr) as (pre & x0 & post & -> & Hall & Hrunpre & Hcase).
    exists (x :: pre), x0, post. split_and!; [done|by constructor|by apply Hpre|done]. }
  cbn [run_instructions] in Hrun.
  destruct (Ascii.eqb x nl || Ascii.eqb x NUL) eqn:Hterm; [by simplify_eq|].
  assert (Hx : at_terminator [x] = false) by done.
  destruct (Ascii.eqb_spec x "n") as [->|Hn].
  { destruct (lines st) as [| |a] eqn:Hcur; simpl in Hrun; [done| |].
    - simplify_eq. exists [], "n"%char, s. split_and!; [done|constructor|done|].
      left. split_and!; [done..|]. by left.
    - destruct (mem_line st !! a) as [nd|] eqn:Hnd; [|unfold load_line in Hrun; rewrite Hnd in Hrun; done].
      erewrite load_line_Some in Hrun by done. simpl in Hrun.
      destruct (next nd) as [| |n] eqn:Hnx; simpl in Hrun; [done| |].
      + simplify_eq. exists [], "n"%char, s. split_and!; [done|constructor|done|].
        left. split_and!; [done..|]. right. eauto.
      + apply (Hstep _ Hx Hrun). intros pre Hp. cbn [run_instructions]. simpl.
        rewrite Hcur. simpl. erewrite load_line_Some by done. simpl. rewrite Hnx. simpl. done. }
  destruct (Ascii.eqb_spec x "b") as [->|Hb].
  { destruct (lines st) as [| |a] eqn:Hcur; simpl in Hrun; [done| |].
    - simplify_eq. exists [], "b"%char, s. split_and!; [done|constructor|done|].
      right. left. split_and!; [done..|]. by left.
    - destruct (mem_line st !! a) as [nd|] eqn:Hnd; [|unfold load_line in Hrun; rewrite Hnd in Hrun; done].
      erewrite load_line_Some in Hrun by done. simpl in Hrun.
      destruct (prev nd) as [| |p] eqn:Hpv; simpl in Hrun; [done| |].
      + simplify_eq. exists [], "b"%char, s. split_and!; [done|constructor|done|].
        right. left. split_and!; [done..|]. right. eauto.
      + apply (Hstep _ Hx Hrun). intros pre Hp. cbn [run_instructions]. simpl.
        rewrite Hcur. simpl. erewrite load_line_Some by done. simpl. rewrite Hpv. simpl. done. }
  destruct (Ascii.eqb_spec x "p") as [->|Hp].
  { destruct (print_line (lines st) st) as [st2| | |] eqn:E; cbn [mbind res_bind] in Hrun; try done.
    apply (Hstep _ Hx Hrun). intros pre Hpre. cbn [run_instructions]. simpl. by rewrite E. }
  destruct (Ascii.eqb_spec x "i") as [->|Hi].
  { destruct (insert_line st) as [st2| | |] eqn:E; cbn [mbind res_bind] in Hrun; try done.
    apply (Hstep _ Hx Hrun). intros pre Hpre. cbn [run_instructions]. simpl. by rewrite E. }
  destruct (Ascii.eqb_spec x "l") as [->|Hl].
  { destruct (lines_to_handle Stdout (start st) st) as [st2| | |] eqn:E;
      cbn [mbind res_bind] in Hrun; try done.
    apply (Hstep _ Hx Hrun). intros pre Hpre. cbn [run_instructions]. simpl. by rewrite E. }
  destruct (Ascii.eqb_spec x "d") as [->|Hd].
  { destruct (delete_line (lines st) st) as [[ret st2]| | |] eqn:E;
      cbn [mbind res_bind] in Hrun; try done.
    apply (Hstep _ Hx Hrun). intros pre Hpre. cbn [run_instructions]. simpl. by rewrite E. }
  destruct (Ascii.eqb_spec x "q") as [->|Hq].
  { simplify_eq. exists [], "q"%char, s. split_and!; [done|constructor|done|]. by right; right. }
  destruct (Ascii.eqb_spec x "w") as [->|Hw].
  { destruct (write_lines fname (start st) st) as [st2| | |] eqn:E;
      cbn [mbind res_bind] in Hrun; try done.
    apply (Hstep _ Hx Hrun). intros pre Hpre. cbn [run_instructions]. simpl. by rewrite E. }
  destruct (Ascii.eqb_spec x "h") as [->|Hh].
  { destruct (usage st) as [st2| | |] eqn:E; cbn [mbind res_bind] in Hrun; try done.
    apply (Hstep _ Hx Hrun). intros pre Hpre. cbn [run_instructions]. simpl.
    unfold usage, fputs in E. simpl in E. by simplify_eq. }
  apply (Hstep _ Hx Hrun). intros pre Hpre. cbn [run_instructions]. rewrite Hterm.
  repeat match goal with
  | |- context [if Ascii.eqb x ?y then _ else _] =>
      destruct (Ascii.eqb_spec x y) as [?|_]; [done|]
  end.
  done.
Qed.

(** ** The properties of the specification *)

(** C1, as the claim states it, fails: deleting the middle line of three
    (at 4, between 1 and 7) returns the previous line, not the next. *)
Lemma delete_line_middle_returns_previous :
  mem_line abc_second !! 4%positive = Some (Line (Ptr 5) (Ptr 7) (Ptr 1)) ∧
  lines abc_second = Ptr 4 ∧
  claimed_new_current (Line (Ptr 5) (Ptr 7) (Ptr 1)) = Ptr 7 ∧
  ∃ st', delete_line (lines abc_second) abc_second = Ret (Ptr 1, st') ∧
         Ptr 1 ≠ claimed_new_current (Line (Ptr 5) (Ptr 7) (Ptr 1)).
Proof.
  split_and!; [vm_compute; reflexivity..|].
  eexists. split; [vm_compute; reflexivity|]. discriminate.
Qed.

(** C1, amended: deleting the current line of a well-formed buffer
    unlinks and frees it, joins its neighbours, moves [start] to its next
    line if it was the first, and returns its previous line if there is
    one, else its next line, else [NULL]; deleting with no current line
    returns [NULL] and changes nothing. *)
Theorem delete_line_relinks st l1 a cs l2 nd :
  wf st (l1 ++ (a, cs) :: l2) → mem_line st !! a = Some nd →
  delete_line NULL st = Ret (NULL, st) ∧
  ∃ st', delete_line (Ptr a) st = Ret (returned_new_current nd, st') ∧
    wf st' (l1 ++ l2) ∧ mem_line st' !! a = None ∧
    start st' = (if decide (start st = Ptr a) then next nd else start st) ∧
    (∀ p, prev nd = Ptr p → ∃ np, mem_line st' !! p = Some np ∧ next np = next nd) ∧
    (∀ n, next nd = Ptr n → ∃ nn, mem_line st' !! n = Some nn ∧ prev nn = prev nd).
Proof.
  intros Hwf Hnd. split; [done|].
  destruct (wf_cursor_node _ _ _ _ _ Hwf) as (nd' & Hnd' & Hprev & Hnext & _).
  assert (nd' = nd) as -> by congruence.
  destruct (wf_zipper _ _ _ _ _ Hwf) as (nd' & lastp & Hnd'' & _ & H1 & _ & Hnd1 & _).
  assert (nd' = nd) as -> by congruence.
  destruct (delete_line_spec _ _ _ _ _ Hwf) as (st' & Hrun & Hwf' & _ & Hstart & Hgone).
  exists st'. split_and!; try done.
  - rewrite Hrun. do 2 f_equal. unfold new_current, returned_new_current.
    rewrite Hprev, Hnext. destruct (last l1) as [[p pcs]|]; simpl; [done|].
    by destruct (head l2) as [[n ncs]|].
  - rewrite Hstart.
    destruct (dseg_before _ _ _ _ _ _ H1 Hnd1) as
      [(-> & Hs & _)|(l1' & p & pcs & np & s0 & -> & _ & _ & _ & _ & Hs & Hs0)].
    + rewrite decide_True by done. done.
    + rewrite decide_False.
      * by destruct l1'.
      * rewrite Hs. intros [= ->].
        pose proof (wf_lines_NoDup _ _ Hwf) as Hnd0. rewrite fmap_app, fmap_cons in Hnd0.
        apply NoDup_app in Hnd0 as (_ & Hd & _). apply (Hd _ Hs0). by left.
  - intros p Hp. rewrite Hp in Hprev.
    destruct (last l1) as [[p' pcs]|] eqn:Hlast; simpl in Hprev; simplify_eq.
    apply last_Some in Hlast as [l1' ->]. rewrite <- app_assoc in Hwf'. simpl in Hwf'.
    destruct (wf_cursor_node _ _ _ _ _ Hwf') as (np & Hnp & _ & Hnpn & _).
    exists np. split; [done|]. congruence.
  - intros n Hn. rewrite Hn in Hnext.
    destruct l2 as [|[n' ncs] l2]; simpl in Hnext; simplify_eq.
    destruct (wf_cursor_node _ _ _ _ _ Hwf') as (nn & Hnn & Hnnp & _).
    exists nn. split; [done|]. congruence.
Qed.

Lemma delete_line_relinks_witness :
  ∃ st', delete_line (Ptr 4) abc_second
         = Ret (returned_new_current (Line (Ptr 5) (Ptr 7) (Ptr 1)), st') ∧
    wf st' [(1, [(2, "a"); (3, " ")]); (7, [(8, "c"); (9, " ")])]%positive%char ∧
    mem_line st' !! 4%positive = None ∧
    start st' = (if decide (start abc_second = Ptr 4) then next (Line (Ptr 5) (Ptr 7) (Ptr 1))
                 else start abc_second) ∧
    (∀ p, prev (Line (Ptr 5) (Ptr 7) (Ptr 1)) = Ptr p →
          ∃ np, mem_line st' !! p = Some np ∧ next np = next (Line (Ptr 5) (Ptr 7) (Ptr 1))) ∧
    (∀ n, next (Line (Ptr 5) (Ptr 7) (Ptr 1)) = Ptr n →
          ∃ nn, mem_line st' !! n = Some nn ∧ prev nn = prev (Line (Ptr 5) (Ptr 7) (Ptr 1))).
Proof.
  apply (delete_line_relinks abc_second
           [(1, [(2, "a"); (3, " ")])]%positive%char 4
           [(5, "b"); (6, " ")]%positive%char
           [(7, [(8, "c"); (9, " ")])]%positive%char
           (Line (Ptr 5) (Ptr 7) (Ptr 1))).
  - apply wf_check_sound. vm_compute. reflexivity.
  - vm_compute. reflexivity.
Defined.

(** C2: the round trip leaves allocated memory.  For the line [hi],
    with or without its newline, [charray_to_line] stores [h] in the block
    it allocated for the first character, a block of the size of a
    pointer, and then [APPEND_LL] stores to the member [next] of that
    block, which lies outside it.  The conversion is undefined, and with it
    the round trip, where the claim has [hi], a space and a newline. *)
Theorem round_trip_out_of_bounds :
  round_trip (Ptr 1) (text "hi" ++ [nl]) one_line_state = Fault ∧
  round_trip (Ptr 1) (text "hi") one_line_state = Fault ∧
  ∃ st1, store_c (Ptr 2) "h" (ALLOC_LL_character one_line_state).2 = Ret st1 ∧
         small_character st1 !! 2%positive = Some (Some "h"%char) ∧
         mem_character st1 !! 2%positive = None ∧
         APPEND_LL_character (Ptr 2) st1 = Fault.
Proof.
  split_and!; [vm_compute; reflexivity..|].
  eexists. split_and!; vm_compute; reflexivity.
Qed.

(** C3: scanning a command line.  The scan ends with 0 at the end of the
    string and at a newline or NUL, whatever follows.  An unrecognized
    byte is skipped.  [q] ends the scan with -3, whatever follows.  [n]
    ends it with -1, whatever follows, when the cursor cannot advance, and
    otherwise moves the cursor and goes on with the rest; [b] likewise
    with -2.  Every other command letter runs its operation once, and the
    scan goes on from the state the operation left.  In all cases that end
    the scan the state is the one the commands before have left.  So
    commands run left to right: after a prefix that has run to its end,
    the rest runs from the state the prefix left.  And a signal other than
    0 arises in no other way than at a [q], or an [n] or [b] that cannot
    move, reached after all commands before it have run. *)
Theorem run_instructions_scan fname :
  (∀ st, run_instructions fname [] st = Ret (0, st)) ∧
  (∀ x s st, at_terminator [x] = true → run_instructions fname (x :: s) st = Ret (0, st)) ∧
  (∀ x s st, unrecognized x →
     run_instructions fname (x :: s) st = run_instructions fname s st) ∧
  (∀ s st, run_instructions fname ("q"%char :: s) st = Ret (-3, st)) ∧
  (∀ s st, cannot_advance st → run_instructions fname ("n"%char :: s) st = Ret (-1, st)) ∧
  (∀ s st a nd n, lines st = Ptr a → mem_line st !! a = Some nd → next nd = Ptr n →
     run_instructions fname ("n"%char :: s) st
     = run_instructions fname s (set_lines (Ptr n) st)) ∧
  (∀ s st, cannot_retreat st → run_instructions fname ("b"%char :: s) st = Ret (-2, st)) ∧
  (∀ s st a nd p, lines st = Ptr a → mem_line st !! a = Some nd → prev nd = Ptr p →
     run_instructions fname ("b"%char :: s) st
     = run_instructions fname s (set_lines (Ptr p) st)) ∧
  (∀ x s st, x ∈ ["p"; "i"; "l"; "d"; "w"; "h"]%char →
     run_instructions fname (x :: s) st
     = (st' ← operation fname x st; run_instructions fname s st')) ∧
  (∀ pre post st st1,
     Forall (λ y, at_terminator [y] = false) pre →
     run_instructions fname pre st = Ret (0, st1) →
     run_instructions fname (pre ++ post) st = run_instructions fname post st1) ∧
  (∀ s st r st', run_instructions fname s st = Ret (r, st') → r ≠ 0 →
     ∃ pre x post,
       s = pre ++ x :: post ∧ Forall (λ y, at_terminator [y] = false) pre ∧
       run_instructions fname pre st = Ret (0, st') ∧
       ((x = "n"%char ∧ r = -1 ∧ cannot_advance st') ∨
        (x = "b"%char ∧ r = -2 ∧ cannot_retreat st') ∨
        (x = "q"%char ∧ r = -3))).
Proof.
  split_and!.
  - done.
  - intros x s st Hx. unfold at_terminator in Hx. simpl in Hx.
    cbn [run_instructions]. by rewrite Hx.
  - intros x s st. apply run_instructions_unrecognized.
  - done.
  - intros s st [Hcur|(a & nd & Hcur & Hnd & Hn)]; cbn [run_instructions]; simpl; rewrite Hcur.
    + done.
    + simpl. erewrite load_line_Some by done. simpl. by rewrite Hn.
  - intros s st a nd n Hcur Hnd Hn. cbn [run_instructions]. simpl. rewrite Hcur. simpl.
    erewrite load_line_Some by done. simpl. by rewrite Hn.
  - intros s st [Hcur|(a & nd & Hcur & Hnd & Hp)]; cbn [run_instructions]; simpl; rewrite Hcur.
    + done.
    + simpl. erewrite load_line_Some by done. simpl. by rewrite Hp.
  - intros s st a nd p Hcur Hnd Hp. cbn [run_instructions]. simpl. rewrite Hcur. simpl.
    erewrite load_line_Some by done. simpl. by rewrite Hp.
  - intros x s st Hx. unfold operation.
    repeat (apply elem_of_cons in Hx as [->|Hx]; [cbn [run_instructions]; simpl|]).
    + done.
    + done.
    + done.
    + by destruct (delete_line (lines st) st) as [[ret st']| | |].
    + done.
    + done.
    + by apply elem_of_nil in Hx.
  - intros pre post st st1. apply run_instructions_app.
  - intros s st r st'. apply run_instructions_signal.
Qed.

Lemma run_instructions_scan_witness :
  run_instructions "f" (text "nnnp") abc_loaded = Ret (-1, set_lines (Ptr 7) abc_loaded) ∧
  run_instructions "f" (text "n qdp") abc_loaded = Ret (-3, abc_second) ∧
  run_instructions "f" (text "bp") abc_loaded = Ret (-2, abc_loaded).
Proof.
  destruct (run_instructions_scan "f") as
    (_ & _ & Hskip & Hq & Hn_stop & Hn & Hb_stop & _).
  split_and!.
  - change (text "nnnp") with ("n" :: "n" :: "n" :: "p" :: [])%char.
    rewrite (Hn _ abc_loaded 1%positive (Line (Ptr 2) (Ptr 4) NULL) 4%positive)
      by (vm_compute; reflexivity).
    rewrite (Hn _ _ 4%positive (Line (Ptr 5) (Ptr 7) (Ptr 1)) 7%positive)
      by (vm_compute; reflexivity).
    rewrite Hn_stop; [vm_compute; reflexivity|].
    right. exists 7%positive, (Line (Ptr 8) NULL (Ptr 4)). split_and!; vm_compute; reflexivity.
  - change (text "n qdp") with ("n" :: " " :: "q" :: "d" :: "p" :: [])%char.
    rewrite (Hn _ abc_loaded 1%positive (Line (Ptr 2) (Ptr 4) NULL) 4%positive)
      by (vm_compute; reflexivity).
    rewrite Hskip.
    + rewrite Hq. vm_compute. reflexivity.
    + split; [reflexivity|]. intros Hin.
      repeat (apply elem_of_cons in Hin as [Hin|Hin]; [discriminate|]).
      by apply elem_of_nil in Hin.
  - change (text "bp") with ("b" :: "p" :: [])%char.
    apply Hb_stop. right. exists 1%positive, (Line (Ptr 2) (Ptr 4) NULL).
    split_and!; vm_compute; reflexivity.
Defined.

(** C4: on a readable cursor, [n] fails with -1 and changes nothing exactly
    when there is no current line or it has no next line, and otherwise
    moves the cursor to the next line; [b] does the same backwards with -2. *)
Theorem advance_retreat fname st :
  valid_cursor st →
  (∃ r st', run_instructions fname ["n"%char] st = Ret (r, st') ∧
     ((r = -1 ∧ st' = st ∧ cannot_advance st) ∨
      (r = 0 ∧ ¬ cannot_advance st ∧
       ∃ a nd n, lines st = Ptr a ∧ mem_line st !! a = Some nd ∧ next nd = Ptr n ∧
                 st' = set_lines (Ptr n) st))) ∧
  (∃ r st', run_instructions fname ["b"%char] st = Ret (r, st') ∧
     ((r = -2 ∧ st' = st ∧ cannot_retreat st) ∨
      (r = 0 ∧ ¬ cannot_retreat st ∧
       ∃ a nd p, lines st = Ptr a ∧ mem_line st !! a = Some nd ∧ prev nd = Ptr p ∧
                 st' = set_lines (Ptr p) st))).
Proof.
  intros [Hcur|(a & nd & Hcur & Hnd & Hnx & Hpv)]; cbn [run_instructions]; simpl.
  - rewrite Hcur. simpl. split; eexists _, _; (split; [done|]); left; split_and!; try done;
      by left.
  - rewrite Hcur. simpl. erewrite !load_line_Some by done. simpl. split.
    + destruct (next nd) as [| |n] eqn:Hn; [done| |]; simpl; eexists _, _; (split; [done|]).
      * left. split_and!; try done. right. eauto.
      * right. split; [done|]. split; [|eauto 10].
        intros [?|(a' & nd' & ? & ? & ?)]; congruence.
    + destruct (prev nd) as [| |p] eqn:Hp; [done| |]; simpl; eexists _, _; (split; [done|]).
      * left. split_and!; try done. right. eauto.
      * right. split; [done|]. split; [|eauto 10].
        intros [?|(a' & nd' & ? & ? & ?)]; congruence.
Qed.

Lemma advance_retreat_witness :
  (∃ r st', run_instructions "f" ["n"%char] abc_loaded = Ret (r, st') ∧
     ((r = -1 ∧ st' = abc_loaded ∧ cannot_advance abc_loaded) ∨
      (r = 0 ∧ ¬ cannot_advance abc_loaded ∧
       ∃ a nd n, lines abc_loaded = Ptr a ∧ mem_line abc_loaded !! a = Some nd ∧
                 next nd = Ptr n ∧ st' = set_lines (Ptr n) abc_loaded))) ∧
  (∃ r st', run_instructions "f" ["b"%char] abc_loaded = Ret (r, st') ∧
     ((r = -2 ∧ st' = abc_loaded ∧ cannot_retreat abc_loaded) ∨
      (r = 0 ∧ ¬ cannot_retreat abc_loaded ∧
       ∃ a nd p, lines abc_loaded = Ptr a ∧ mem_line abc_loaded !! a = Some nd ∧
                 prev nd = Ptr p ∧ st' = set_lines (Ptr p) abc_loaded))).
Proof.
  apply (advance_retreat "f" abc_loaded).
  right. exists 1%positive. eexists. split_and!; [reflexivity|vm_compute; reflexivity|..];
    vm_compute; discriminate.
Defined.

(** C5: insertion leaves allocated memory.  With no buffer and the line
    [one] typed, [insert_line] allocates the new line and [charray_to_line]
    allocates its first character, both with the size of a pointer; the
    first store behind the first member, to the [next] of the character
    block, is outside the block.  No line is inserted, where the claim has
    the typed lines in the buffer in order. *)
Theorem insert_line_out_of_bounds :
  insert_line typing_state = Fault ∧
  run_instructions "f" (text "i") typing_state = Fault ∧
  (ALLOC_LL_line typing_state).1 = Ptr 1 ∧
  charray_to_line (Ptr 1) (text "one" ++ [nl]) (ALLOC_LL_line typing_state).2 = Fault.
Proof.
  split_and!; vm_compute; reflexivity.
Qed.



(** C7: loading leaves allocated memory.  When the file is missing and
    can be created, [create_empty_file] creates it empty; when it is there
    and empty, it is opened.  Either way [read_lines] then allocates the
    block for [dest] with the size of a pointer and stores to its member
    [prev], outside the block.  It does not get to return the empty
    buffer the claim has. *)
Theorem read_lines_out_of_bounds :
  read_lines "f" empty_state = Fault ∧
  read_lines "f" (set_fs {[ "f"%string := Regular true true [] ]} empty_state) = Fault ∧
  ∃ st1, create_empty_file "f" empty_state = Ret ([], st1) ∧
         fs st1 !! "f"%string = Some (Regular true true []) ∧
         (ALLOC_LL_line st1).1 = Ptr 1 ∧
         small_line (ALLOC_LL_line st1).2 !! 1%positive = Some Undef ∧
         mem_line (ALLOC_LL_line st1).2 !! 1%positive = None ∧
         store_line (Ptr 1) (with_prev NULL) (ALLOC_LL_line st1).2 = Fault.
Proof.
  split_and!; [vm_compute; reflexivity..|].
  eexists. split_and!; vm_compute; reflexivity.
Qed.

(** C8: insertion does not keep the invariant.  From a well-formed buffer
    of three lines with the cursor on the second, which satisfies the
    cursor invariant, the command [i] with a line typed stores outside the
    block allocated for the line's first character: the behaviour is
    undefined, and no state is left for the invariant to hold in. *)
Theorem insert_line_invariant_lost :
  wf abc_typing abc_lines ∧ cursor_inv abc_typing ∧
  stdin abc_typing = [text "new" ++ [nl]; text "lost" ++ [nl]; text "q" ++ [nl]] ∧
  insert_line abc_typing = Fault ∧
  run_instructions "f" (text "i") abc_typing = Fault.
Proof.
  assert (Hwf : wf abc_typing abc_lines) by (apply wf_check_sound; vm_compute; reflexivity).
  split_and!; [done| |vm_compute; reflexivity..].
  apply inv_cursor_inv. exists abc_lines. split; [done|].
  right. exists 4%positive. split; [reflexivity|]. vm_compute. right. left.
Qed.

(** C9: [run_instructions] returns only 0, -1, -2 or -3; the test of
    [case -4] in main's [switch] ([main_switch]) is false on every value it
    returns, so the write branch there is never entered. *)
Theorem run_instructions_values fname s : ∀ st,
  match run_instructions fname s st with
  | Ret (r, _) => (r = 0 ∨ r = -1 ∨ r = -2 ∨ r = -3) ∧ (r =? -4) = false
  | _ => True
  end.
Proof.
  induction s as [|x s IH]; intros st; cbn [run_instructions]; [by auto|].
  destruct (Ascii.eqb x nl || Ascii.eqb x NUL); [by auto|].
  repeat match goal with
  | |- context [if Ascii.eqb x ?y then _ else _] => destruct (Ascii.eqb x y)
  end;
  repeat match goal with
  | |- True => exact I
  | |- match Ret _ with _ => _ end => cbn [mbind res_bind]; by auto
  | |- match run_instructions _ _ _ with _ => _ end => apply IH
  | |- match (mbind _ ?m) with _ => _ end =>
      let E := fresh in destruct m as [?| | |] eqn:E; cbn [mbind res_bind]
  | |- match (if ?b then _ else _) with _ => _ end => destruct b
  | |- match (let (_, _) := ?p in _) with _ => _ end => destruct p
  | |- _ ∧ _ => split; [lia|reflexivity]
  end.
Qed.



(** * Part IV: further properties of the code *)

(** ** Loading *)



(** ** Saving and printing *)

Lemma until_NUL_cut t1 t2 : NUL ∉ t1 → until_NUL (t1 ++ NUL :: t2) = t1.
Proof.
  induction t1 as [|x t1 IH]; intros Hnul; [done|]. simpl.
  destruct (Ascii.eqb_spec x NUL) as [->|Hx]; [exfalso; apply Hnul; by left|].
  f_equal. apply IH. intros Hin. apply Hnul. by right.
Qed.

Lemma write_lines_spec fname st ls :
  wf st ls →
  write_lines fname (start st) st
  = match fs st !! fname with
    | None =>
        Ret (set_fs (<[fname := Regular true true (concat (printed <$> ls))]> (fs st)) st)
    | Some (Regular r true _) =>
        Ret (set_fs (<[fname := Regular r true (concat (printed <$> ls))]> (fs st)) st)
    | Some (Regular r false _) => Exit EXIT_FAILURE (perror "ed" EACCES st)
    | Some Orphan => Exit EXIT_FAILURE (perror "ed" ENOENT st)
    end.
Proof.
  intros Hwf. unfold write_lines, fopen_w.
  destruct (fs st !! fname) as [[r [] old|]|] eqn:Hf; try done.
  - match goal with |- lines_to_handle _ _ ?s = _ => set (st1 := s) end.
    assert (Hwf1 : wf st1 ls) by (eapply wf_env; [exact Hwf|done..]).
    change (start st) with (start st1).
    rewrite (lines_to_handle_spec (OnDisk fname) st1 ls Hwf1).
    + subst st1. simpl. rewrite lookup_insert_eq. simpl. by rewrite insert_insert_eq.
    + subst st1. simpl. rewrite lookup_insert_eq. eauto.
  - match goal with |- lines_to_handle _ _ ?s = _ => set (st1 := s) end.
    assert (Hwf1 : wf st1 ls) by (eapply wf_env; [exact Hwf|done..]).
    change (start st) with (start st1).
    rewrite (lines_to_handle_spec (OnDisk fname) st1 ls Hwf1).
    + subst st1. simpl. rewrite lookup_insert_eq. simpl. by rewrite insert_insert_eq.
    + subst st1. simpl. rewrite lookup_insert_eq. eauto.
Qed.

Lemma printed_plain ls :
  Forall plain (line_text <$> ls) → concat (printed <$> ls) = written (line_text <$> ls).
Proof.
  unfold written. induction ls as [|l ls IH]; intros Hall; [done|].
  rewrite fmap_cons in Hall. apply Forall_cons in Hall as [[Hnl Hnul] Hall].
  rewrite !fmap_cons. simpl. f_equal; [|by apply IH].
  unfold printed. apply until_NUL_id.
  intros [Hin|Hin]%elem_of_app; [done|].
  apply list_elem_of_singleton in Hin. discriminate.
Qed.

(** X2: saving.  [write_lines] on a well-formed buffer replaces the
    contents of the file.  For each line, in order, the file gets the
    bytes of the line and a newline, read as a C string, that is cut at
    the first NUL: a line without NUL is written whole and followed by a
    newline, and a line that holds a NUL is written up to that NUL, with
    no newline after it.  A missing file is created; what the file held is
    gone; the buffer is not touched.  When the file cannot be opened for
    writing, [perror] reports it on stderr and the process exits with
    failure. *)
Theorem write_lines_replaces fname st ls :
  wf st ls →
  (fs st !! fname = None →
     write_lines fname (start st) st
     = Ret (set_fs (<[fname := Regular true true (concat (printed <$> ls))]> (fs st)) st)) ∧
  (∀ r old, fs st !! fname = Some (Regular r true old) →
     write_lines fname (start st) st
     = Ret (set_fs (<[fname := Regular r true (concat (printed <$> ls))]> (fs st)) st)) ∧
  (∀ r old, fs st !! fname = Some (Regular r false old) →
     write_lines fname (start st) st
     = Exit EXIT_FAILURE (set_stderr (stderr st ++ text "ed: Permission denied" ++ [nl]) st)) ∧
  (fs st !! fname = Some Orphan →
     write_lines fname (start st) st
     = Exit EXIT_FAILURE
         (set_stderr (stderr st ++ text "ed: No such file or directory" ++ [nl]) st)) ∧
  (∀ l, NUL ∉ line_text l → printed l = line_text l ++ [nl]) ∧
  (∀ l t1 t2, line_text l = t1 ++ NUL :: t2 → NUL ∉ t1 → printed l = t1) ∧
  (Forall plain (line_text <$> ls) →
     concat (printed <$> ls) = written (line_text <$> ls)).
Proof.
  intros Hwf. pose proof (write_lines_spec fname st ls Hwf) as Hrun.
  split_and!.
  - intros Hf. by rewrite Hf in Hrun.
  - intros r old Hf. by rewrite Hf in Hrun.
  - intros r old Hf. by rewrite Hf in Hrun.
  - intros Hf. by rewrite Hf in Hrun.
  - intros l Hnul. unfold printed. apply until_NUL_id.
    intros [Hin|Hin]%elem_of_app; [done|].
    apply list_elem_of_singleton in Hin. discriminate.
  - intros l t1 t2 Ht Hnul. unfold printed. rewrite Ht, <- app_assoc. simpl.
    by apply until_NUL_cut.
  - apply printed_plain.
Qed.

Lemma write_lines_replaces_witness :
  write_lines "f" (start abc_loaded) abc_loaded
  = Ret (set_fs (<["f"%string := Regular true true (concat (printed <$> abc_lines))]>
                   (fs abc_loaded)) abc_loaded).
Proof.
  destruct (write_lines_replaces "f" abc_loaded abc_lines) as (_ & Hw & _).
  - apply wf_check_sound. vm_compute. reflexivity.
  - apply (Hw true (text "a" ++ nl :: text "b" ++ nl :: text "c" ++ [nl])). reflexivity.
Defined.

(** X5: printing.  [p] writes the bytes of the current line, all of them,
    and a newline to stdout; with no current line it writes the newline
    alone.  Nothing else changes, and the scan goes on. *)
Theorem print_line_current fname st ls :
  wf st ls →
  (lines st = NULL →
     run_instructions fname ["p"%char] st = Ret (0, set_stdout (stdout st ++ [nl]) st)) ∧
  (∀ a, lines st = Ptr a → a ∈ ls.*1 →
     ∃ l, l ∈ ls ∧ l.1 = a ∧
       run_instructions fname ["p"%char] st
       = Ret (0, set_stdout (stdout st ++ line_text l ++ [nl]) st)).
Proof.
  intros Hwf. split.
  - intros Hcur. cbn [run_instructions]. simpl. rewrite Hcur.
    unfold print_line. cbn [is_null mbind res_bind].
    rewrite (fputs_fput_state _ Stdout) by done. simpl. by rewrite Hcur.
  - intros a Hcur Ha.
    destruct (NoDup_fst_split ls a (wf_lines_NoDup _ _ Hwf) Ha) as (l1 & cs & l2 & -> & _).
    exists (a, cs). split_and!; [apply elem_of_app; right; by left|done|].
    cbn [run_instructions]. simpl. rewrite Hcur.
    erewrite print_line_spec by done. simpl. by rewrite Hcur.
Qed.

Lemma print_line_current_witness :
  ∃ l, l ∈ abc_lines ∧ l.1 = 4%positive ∧
    run_instructions "f" ["p"%char] abc_second
    = Ret (0, set_stdout (stdout abc_second ++ line_text l ++ [nl]) abc_second).
Proof.
  destruct (print_line_current "f" abc_second abc_lines) as [_ Hp].
  - apply wf_check_sound. vm_compute. reflexivity.
  - apply (Hp 4%positive); [reflexivity|]. vm_compute. right. left.
Defined.

(** X6: flattening a line.  [lines_to_charray] returns a buffer of two
    bytes more than the chain has nodes: the bytes of the chain in order,
    a newline, a NUL.  All its stores fall inside the buffer, every cell is
    written, and the heap is only read. *)
Theorem lines_to_charray_buffer d nd cells st :
  mem_line st !! d = Some nd → chain (mem_character st) (data nd) cells →
  ∃ b, lines_to_charray (Ptr d) st = Ret b ∧
    b = Some <$> (cells.*2 ++ [nl; NUL]) ∧
    length b = (length cells + 2)%nat ∧
    b !! length cells = Some (Some nl) ∧
    b !! S (length cells) = Some (Some NUL) ∧
    c_str b = Ret (until_NUL (cells.*2 ++ [nl])).
Proof.
  intros Hd Hch. eexists. split; [by eapply lines_to_charray_spec|].
  split_and!; [done| | | |].
  - rewrite length_fmap, length_app, length_fmap. simpl. lia.
  - rewrite list_lookup_fmap, lookup_app_r; rewrite length_fmap; [|lia].
    by rewrite Nat.sub_diag.
  - rewrite list_lookup_fmap, lookup_app_r; rewrite length_fmap; [|lia].
    by replace (S (length cells) - length cells)%nat with 1%nat by lia.
  - replace (cells.*2 ++ [nl; NUL]) with ((cells.*2 ++ [nl]) ++ [NUL])
      by (by rewrite <- app_assoc).
    apply c_str_until_NUL.
Qed.

Lemma lines_to_charray_buffer_witness :
  ∃ b, lines_to_charray (Ptr 4) abc_loaded = Ret b ∧
    b = Some <$> ([(5%positive, "b"%char); (6%positive, " "%char)].*2 ++ [nl; NUL]) ∧
    length b = (length [(5%positive, "b"%char); (6%positive, " "%char)] + 2)%nat ∧
    b !! length [(5%positive, "b"%char); (6%positive, " "%char)] = Some (Some nl) ∧
    b !! S (length [(5%positive, "b"%char); (6%positive, " "%char)]) = Some (Some NUL) ∧
    c_str b = Ret (until_NUL ([(5%positive, "b"%char); (6%positive, " "%char)].*2 ++ [nl])).
Proof.
  apply (lines_to_charray_buffer 4 (Line (Ptr 5) (Ptr 7) (Ptr 1))).
  - vm_compute. reflexivity.
  - apply chain_check_sound. vm_compute. reflexivity.
Defined.

(** ** Freeing the buffer *)

Lemma lookup_free_lines addrs : ∀ (hl : gmap loc line) a,
  free_lines addrs hl !! a = if decide (a ∈ addrs) then None else hl !! a.
Proof.
  unfold free_lines. induction addrs as [|b addrs IH]; intros hl a; cbn [foldl].
  - rewrite decide_False; [done|]. apply not_elem_of_nil.
  - rewrite IH. destruct (decide (a ∈ addrs)) as [Hin|Hnin].
    + rewrite decide_True; [done|]. by right.
    + rewrite lookup_delete. destruct (decide (b = a)) as [->|Hne].
      * rewrite decide_True; [done|]. by left.
      * rewrite decide_False; [done|]. intros [?|?]%elem_of_cons; congruence.
Qed.

Lemma free_cells_app addrs1 addrs2 hc :
  free_cells (addrs1 ++ addrs2) hc = free_cells addrs2 (free_cells addrs1 hc).
Proof. unfold free_cells. apply foldl_app. Qed.

Lemma destroy_lines_loop_spec ls : ∀ fuel pv p lastp st,
  dseg (mem_line st) (mem_character st) pv p NULL lastp ls →
  NoDup ls.*1 → NoDup (cell_addrs ls) → (length ls < fuel)%nat →
  destroy_lines_loop fuel p st
  = Ret (set_mem_line (free_lines ls.*1 (mem_line st))
           (set_mem_character (free_cells (cell_addrs ls) (mem_character st)) st)).
Proof.
  induction ls as [|[a cs] ls IH]; intros [|fuel] pv p lastp st Hseg Hndl Hndc Hlt;
    simpl in Hlt; try lia.
  - destruct Hseg as [-> _]. simpl. by destruct st.
  - destruct Hseg as (-> & n & Hn & Hp & Hch & Hseg).
    rewrite fmap_cons in Hndl. apply NoDup_cons in Hndl as [Ha Hndl].
    rewrite cell_addrs_cons in Hndc. apply NoDup_app in Hndc as (_ & Hdisj & Hndc).
    cbn [destroy_lines_loop is_null mbind res_bind].
    erewrite load_line_Some by done. cbn [mbind res_bind].
    erewrite destroy_line_spec by done. cbn [mbind res_bind].
    erewrite IH; [|simpl|done|done|lia].
    + simpl. rewrite cell_addrs_cons, free_cells_app. done.
    + eapply dseg_frame; [| |exact Hseg].
      * intros b Hb. rewrite lookup_delete_ne; [done|]. intros ->. done.
      * intros b Hb. rewrite lookup_free_cells. rewrite decide_False; [done|].
        intros Hin. by apply (Hdisj b).
Qed.

Lemma destroy_lines_spec st ls :
  wf st ls →
  destroy_lines (start st) st
  = Ret (set_mem_line (free_lines ls.*1 (mem_line st))
           (set_mem_character (free_cells (cell_addrs ls) (mem_character st)) st)).
Proof.
  intros Hwf. pose proof (wf_length_fuel _ _ Hwf) as Hfuel.
  destruct Hwf as [[lastp Hseg] Hndl Hndc _ _].
  unfold destroy_lines. by erewrite destroy_lines_loop_spec.
Qed.

(** X7: cleaning up.  [destroy_lines] on a well-formed buffer returns, and
    has freed every line of the buffer and every character node of every
    line; all other memory, and everything but memory, is as before. *)
Theorem destroy_lines_frees_buffer st ls :
  wf st ls →
  ∃ st', destroy_lines (start st) st = Ret st' ∧
    (∀ a, mem_line st' !! a = if decide (a ∈ ls.*1) then None else mem_line st !! a) ∧
    (∀ a, mem_character st' !! a
          = if decide (a ∈ cell_addrs ls) then None else mem_character st !! a) ∧
    st' = set_mem_line (mem_line st') (set_mem_character (mem_character st') st).
Proof.
  intros Hwf. rewrite (destroy_lines_spec st ls Hwf).
  eexists. split; [reflexivity|]. simpl. split_and!; [| |done].
  - intros a. apply lookup_free_lines.
  - intros a. apply lookup_free_cells.
Qed.

Lemma destroy_lines_frees_buffer_witness :
  ∃ st', destroy_lines (start abc_loaded) abc_loaded = Ret st' ∧
    (∀ a, mem_line st' !! a
          = if decide (a ∈ abc_lines.*1) then None else mem_line abc_loaded !! a) ∧
    (∀ a, mem_character st' !! a
          = if decide (a ∈ cell_addrs abc_lines) then None else mem_character abc_loaded !! a) ∧
    st' = set_mem_line (mem_line st') (set_mem_character (mem_character st') abc_loaded).
Proof.
  apply (destroy_lines_frees_buffer abc_loaded abc_lines).
  apply wf_check_sound. vm_compute. reflexivity.
Defined.

(** ** The file name argument *)

Lemma strlen_lookup s : ∀ n,
  strlen s = Ret n → s !! n = Some (Some NUL) ∧ (n < length s)%nat.
Proof.
  induction s as [|[x|] s IH]; intros n Hn; simpl in Hn; try done.
  destruct (Ascii.eqb_spec x NUL) as [->|Hx].
  - simplify_eq. simpl. split; [done|lia].
  - destruct (strlen s) as [m| | |]; cbn [mbind res_bind] in Hn; try done. simplify_eq.
    destruct (IH m eq_refl) as [Hl Hlt]. simpl. split; [done|lia].
Qed.

Lemma remove_last_char_id s n : strlen s = Ret n → remove_last_char s = Ret s.
Proof.
  intros Hn. unfold remove_last_char. rewrite Hn. cbn [mbind res_bind].
  destruct (strlen_lookup s n Hn) as [Hl Hlt].
  unfold buffer_store. rewrite decide_True by done. f_equal. by apply list_insert_id.
Qed.

(** X9: [remove_last_char] removes nothing.  On every NUL-terminated
    array it returns with the array as it was: the byte it stores is the
    NUL that already ends the string, so a newline before it stays. *)
Theorem remove_last_char_changes_nothing s n :
  strlen s = Ret n →
  remove_last_char s = Ret s ∧
  ∀ name, c_str s = Ret name → (s' ← remove_last_char s; c_str s') = Ret name.
Proof.
  intros Hn. pose proof (remove_last_char_id s n Hn) as Hrun.
  split; [done|]. intros name Hname. by rewrite Hrun.
Qed.

Lemma remove_last_char_changes_nothing_witness :
  remove_last_char (Some <$> (text "f" ++ [nl; NUL])) = Ret (Some <$> (text "f" ++ [nl; NUL])) ∧
  ∀ name, c_str (Some <$> (text "f" ++ [nl; NUL])) = Ret name →
    (s' ← remove_last_char (Some <$> (text "f" ++ [nl; NUL])); c_str s') = Ret name.
Proof.
  apply (remove_last_char_changes_nothing (Some <$> (text "f" ++ [nl; NUL])) 2).
  reflexivity.
Defined.

(** ** Moving the cursor *)

Lemma run_instructions_n fname s st a nd :
  lines st = Ptr a → mem_line st !! a = Some nd →
  run_instructions fname ("n"%char :: s) st
  = match next nd with
    | Ptr n => run_instructions fname s (set_lines (Ptr n) st)
    | NULL => Ret (-1, st)
    | Undef => Fault
    end.
Proof.
  intros Hcur Hnd. cbn [run_instructions]. simpl. rewrite Hcur. simpl.
  erewrite load_line_Some by done. simpl. by destruct (next nd).
Qed.

Lemma run_instructions_b fname s st a nd :
  lines st = Ptr a → mem_line st !! a = Some nd →
  run_instructions fname ("b"%char :: s) st
  = match prev nd with
    | Ptr p => run_instructions fname s (set_lines (Ptr p) st)
    | NULL => Ret (-2, st)
    | Undef => Fault
    end.
Proof.
  intros Hcur Hnd. cbn [run_instructions]. simpl. rewrite Hcur. simpl.
  erewrite load_line_Some by done. simpl. by destruct (prev nd).
Qed.

Lemma set_lines_id st p : lines st = p → set_lines p st = st.
Proof. intros <-. by destruct st. Qed.

Lemma run_n_steps fname mid : ∀ st l1 a cs b cs' l2,
  wf st (l1 ++ (a, cs) :: mid ++ (b, cs') :: l2) → lines st = Ptr a →
  run_instructions fname (replicate (S (length mid)) "n"%char) st
  = Ret (0, set_lines (Ptr b) st).
Proof.
  induction mid as [|[m cm] mid IH]; intros st l1 a cs b cs' l2 Hwf Hcur.
  - destruct (wf_cursor_node _ _ _ _ _ Hwf) as (nd & Hnd & _ & Hnx & _).
    simpl in Hnx. cbn [length replicate].
    rewrite (run_instructions_n fname _ st a nd Hcur Hnd), Hnx. done.
  - destruct (wf_cursor_node _ _ _ _ _ Hwf) as (nd & Hnd & _ & Hnx & _).
    simpl in Hnx. cbn [length replicate].
    rewrite (run_instructions_n fname _ st a nd Hcur Hnd), Hnx.
    change ("n"%char :: replicate (length mid) "n"%char)
      with (replicate (S (length mid)) "n"%char).
    rewrite (IH (set_lines (Ptr m) st) (l1 ++ [(a, cs)]) m cm b cs' l2); [done| |done].
    rewrite <- app_assoc. simpl. eapply wf_env; [exact Hwf|done..].
Qed.

Lemma run_b_steps fname mid : ∀ st l1 a cs b cs' l2,
  wf st (l1 ++ (a, cs) :: mid ++ (b, cs') :: l2) → lines st = Ptr b →
  run_instructions fname (replicate (S (length mid)) "b"%char) st
  = Ret (0, set_lines (Ptr a) st).
Proof.
  induction mid as [|[m cm] mid IH] using rev_ind; intros st l1 a cs b cs' l2 Hwf Hcur.
  - simpl in Hwf. change (l1 ++ (a, cs) :: (b, cs') :: l2)
      with (l1 ++ [(a, cs)] ++ (b, cs') :: l2) in Hwf. rewrite app_assoc in Hwf.
    destruct (wf_cursor_node _ _ _ _ _ Hwf) as (nd & Hnd & Hpv & _).
    rewrite last_snoc in Hpv. simpl in Hpv. cbn [length replicate].
    rewrite (run_instructions_b fname _ st b nd Hcur Hnd), Hpv. done.
  - assert (Hwf2 : wf st ((l1 ++ (a, cs) :: mid ++ [(m, cm)]) ++ (b, cs') :: l2)).
    { rewrite <- app_assoc. simpl. by rewrite <- app_assoc in Hwf |- *. }
    destruct (wf_cursor_node _ _ _ _ _ Hwf2) as (nd & Hnd & Hpv & _).
    rewrite app_comm_cons, app_assoc, last_snoc in Hpv. simpl in Hpv.
    rewrite length_app. cbn [length]. rewrite Nat.add_1_r. cbn [replicate].
    rewrite (run_instructions_b fname _ st b nd Hcur Hnd), Hpv.
    change ("b"%char :: replicate (length mid) "b"%char)
      with (replicate (S (length mid)) "b"%char).
    rewrite (IH (set_lines (Ptr m) st) l1 a cs m cm ((b, cs') :: l2)); [done| |done].
    rewrite <- app_assoc in Hwf. simpl in Hwf. eapply wf_env; [exact Hwf|done..].
Qed.

Lemma replicate_not_terminator (x : ascii) k :
  at_terminator [x] = false → Forall (λ y, at_terminator [y] = false) (replicate k x).
Proof. intros Hx. induction k; simpl; by constructor. Qed.

(** X10: moving forth and back.  With the cursor on a line that has at
    least [k] lines after it, [k] times [n] puts the cursor on the [k]-th
    line after it and changes nothing else; from there [k] times [b]
    brings the state back, so that the command line of [k] [n] and then
    [k] [b] leaves the state as it was. *)
Theorem advance_then_retreat fname st l1 a cs mid b cs' l2 :
  wf st (l1 ++ (a, cs) :: mid ++ (b, cs') :: l2) → lines st = Ptr a →
  let k := S (length mid) in
  run_instructions fname (replicate k "n"%char) st = Ret (0, set_lines (Ptr b) st) ∧
  run_instructions fname (replicate k "b"%char) (set_lines (Ptr b) st) = Ret (0, st) ∧
  run_instructions fname (replicate k "n"%char ++ replicate k "b"%char) st = Ret (0, st).
Proof.
  intros Hwf Hcur k.
  pose proof (run_n_steps fname mid st l1 a cs b cs' l2 Hwf Hcur) as Hn.
  assert (Hb : run_instructions fname (replicate k "b"%char) (set_lines (Ptr b) st) = Ret (0, st)).
  { subst k. rewrite (run_b_steps fname mid _ l1 a cs b cs' l2); [| |done].
    - rewrite <- Hcur. by destruct st.
    - eapply wf_env; [exact Hwf|done..]. }
  split_and!; [done..|].
  rewrite (run_instructions_app fname _ _ st _
             (replicate_not_terminator "n"%char _ eq_refl) Hn).
  exact Hb.
Qed.

Lemma advance_then_retreat_witness :
  let k := S (length [(4, [(5, "b"); (6, " ")])]%positive%char) in
  run_instructions "f" (replicate k "n"%char) abc_loaded = Ret (0, set_lines (Ptr 7) abc_loaded) ∧
  run_instructions "f" (replicate k "b"%char) (set_lines (Ptr 7) abc_loaded)
  = Ret (0, abc_loaded) ∧
  run_instructions "f" (replicate k "n"%char ++ replicate k "b"%char) abc_loaded
  = Ret (0, abc_loaded).
Proof.
  apply (advance_then_retreat "f" abc_loaded [] 1 [(2, "a"); (3, " ")]%positive%char
           [(4, [(5, "b"); (6, " ")])]%positive%char 7 [(8, "c"); (9, " ")]%positive%char []).
  - apply wf_check_sound. vm_compute. reflexivity.
  - reflexivity.
Defined.

Lemma run_n_overshoot fname l2 : ∀ k st l1 a cs,
  wf st (l1 ++ (a, cs) :: l2) → lines st = Ptr a → (length l2 < k)%nat →
  run_instructions fname (replicate k "n"%char) st
  = Ret (-1, set_lines (Ptr (last_addr a l2)) st).
Proof.
  induction l2 as [|[m cm] l2 IH]; intros [|k] st l1 a cs Hwf Hcur Hlt; simpl in Hlt; try lia.
  - destruct (wf_cursor_node _ _ _ _ _ Hwf) as (nd & Hnd & _ & Hnx & _).
    simpl in Hnx. cbn [replicate].
    rewrite (run_instructions_n fname _ st a nd Hcur Hnd), Hnx.
    unfold last_addr. simpl. rewrite <- Hcur. by destruct st.
  - destruct (wf_cursor_node _ _ _ _ _ Hwf) as (nd & Hnd & _ & Hnx & _).
    simpl in Hnx. cbn [replicate].
    rewrite (run_instructions_n fname _ st a nd Hcur Hnd), Hnx.
    rewrite (IH k (set_lines (Ptr m) st) (l1 ++ [(a, cs)]) m cm); [|  |done|lia].
    + by rewrite last_addr_cons.
    + rewrite <- app_assoc. simpl. eapply wf_env; [exact Hwf|done..].
Qed.

Lemma wf_start_head st ls : wf st ls → start st = ptr_of (head ls).
Proof.
  intros [[lastp Hseg] _ _ _ _]. destruct ls as [|[a cs] ls].
  - by destruct Hseg.
  - by destruct Hseg as (-> & _).
Qed.

Lemma run_b_overshoot fname l1 : ∀ k st a cs l2,
  wf st (l1 ++ (a, cs) :: l2) → lines st = Ptr a → (length l1 < k)%nat →
  run_instructions fname (replicate k "b"%char) st = Ret (-2, set_lines (start st) st).
Proof.
  induction l1 as [|[p pc] l1 IH] using rev_ind; intros [|k] st a cs l2 Hwf Hcur Hlt;
    try (rewrite length_app in Hlt); simpl in Hlt; try lia.
  - destruct (wf_cursor_node _ _ _ _ _ Hwf) as (nd & Hnd & Hpv & _).
    simpl in Hpv. cbn [replicate].
    rewrite (run_instructions_b fname _ st a nd Hcur Hnd), Hpv.
    rewrite (wf_start_head _ _ Hwf). simpl. rewrite <- Hcur. by destruct st.
  - destruct (wf_cursor_node _ _ _ _ _ Hwf) as (nd & Hnd & Hpv & _).
    rewrite last_snoc in Hpv. simpl in Hpv. cbn [replicate].
    rewrite (run_instructions_b fname _ st a nd Hcur Hnd), Hpv.
    rewrite (IH k (set_lines (Ptr p) st) p pc ((a, cs) :: l2)); [done| |done|lia].
    rewrite <- app_assoc in Hwf. simpl in Hwf. eapply wf_env; [exact Hwf|done..].
Qed.

(** X11: running off the ends.  With the cursor on a line, more [n] than
    there are lines after it stop at the first [n] that cannot move: the
    signal is -1 and the cursor is on the last line.  More [b] than there
    are lines before it give -2 with the cursor on the first line, which
    is [start].  Nothing else changes. *)
Theorem advance_past_the_end fname st l1 a cs l2 k :
  wf st (l1 ++ (a, cs) :: l2) → lines st = Ptr a →
  ((length l2 < k)%nat →
     run_instructions fname (replicate k "n"%char) st
     = Ret (-1, set_lines (Ptr (last_addr a l2)) st)) ∧
  ((length l1 < k)%nat →
     run_instructions fname (replicate k "b"%char) st
     = Ret (-2, set_lines (start st) st)).
Proof.
  intros Hwf Hcur. split; intros Hlt.
  - by apply (run_n_overshoot fname l2 k st l1 a cs).
  - by apply (run_b_overshoot fname l1 k st a cs l2).
Qed.

Lemma advance_past_the_end_witness :
  run_instructions "f" (replicate 5 "n"%char) abc_second
  = Ret (-1, set_lines (Ptr (last_addr 4 [(7, [(8, "c"); (9, " ")])]%positive%char)) abc_second) ∧
  run_instructions "f" (replicate 5 "b"%char) abc_second
  = Ret (-2, set_lines (start abc_second) abc_second).
Proof.
  destruct (advance_past_the_end "f" abc_second [(1, [(2, "a"); (3, " ")])]%positive%char
              4 [(5, "b"); (6, " ")]%positive%char [(7, [(8, "c"); (9, " ")])]%positive%char 5)
    as [Hn Hb].
  - apply wf_check_sound. vm_compute. reflexivity.
  - reflexivity.
  - split; [apply Hn|apply Hb]; simpl; lia.
Defined.

(** ** Deleting lines *)

Lemma delete_line_memory st l1 a cs l2 r st' :
  wf st (l1 ++ (a, cs) :: l2) → delete_line (Ptr a) st = Ret (r, st') →
  mem_character st' = free_cells cs.*1 (mem_character st) ∧
  (∀ x, is_Some (mem_line st' !! x) ↔ x ≠ a ∧ is_Some (mem_line st !! x)).
Proof.
  intros Hwf. pose proof (wf_zipper _ _ _ _ _ Hwf) as
    (nd & lastp & Hnd & Hch & H1 & H2 & Hnd1 & Hnd2 & Ha1 & Ha2 & Hdisj).
  unfold delete_line. cbn [is_null mbind res_bind].
  destruct (dseg_before _ _ _ _ _ _ H1 Hnd1) as
    [(-> & Hs & Hpa)|(l1' & p & pcs & np & s0 & -> & Hpa & Hnp & Hnpn & Hp1 & Hs & Hs0)];
  destruct (dseg_after _ _ _ _ _ _ H2) as
    [(-> & Hna)|(n & ncs & l2' & nn & -> & Hna & Hnn & Hnnp)].
  - rewrite Hs. simpl. rewrite bool_decide_true by done.
    rw load_line_Some. rw load_line_Some. rewrite Hna. simpl.
    rw load_line_Some. rewrite Hpa. simpl. rw load_line_Some. rewrite Hna, Hpa. simpl.
    erewrite destroy_line_spec; [|look|simpl; exact Hch]. simpl.
    intros [= <- <-]. simpl. split; [done|]. intros x. rewrite lookup_delete.
    case_decide; subst; split; try (intros [? ?]; done); intros [? ?]; done.
  - assert (a ≠ n) by (intros ->; apply Ha2; simpl; by left).
    rewrite Hs. simpl. rewrite bool_decide_true by done.
    rw load_line_Some. rw load_line_Some. rewrite Hna. simpl.
    rw store_line_Some. rw load_line_Some. rewrite Hpa. simpl.
    rw load_line_Some. rewrite Hna. simpl.
    erewrite destroy_line_spec; [|look|simpl; exact Hch]. simpl.
    intros [= <- <-]. simpl. split; [done|]. intros x. rewrite lookup_delete, lookup_insert.
    repeat case_decide; subst; split; try (intros [? ?]; done); try (intros [? ?]; eauto; done).
  - assert (a ≠ p) by (intros ->; apply Ha1; rewrite fmap_app; apply elem_of_app; right; simpl; by left).
    assert (s0 ≠ a) by (intros ->; done).
    rewrite Hs. simpl. rewrite bool_decide_false by congruence. simpl.
    rw load_line_Some. rewrite Hna. simpl.
    rw load_line_Some. rewrite Hpa. simpl. rw store_line_Some.
    rw load_line_Some. rewrite Hna, Hpa. simpl.
    erewrite destroy_line_spec; [|look|simpl; exact Hch]. simpl.
    intros [= <- <-]. simpl. split; [done|]. intros x. rewrite lookup_delete, lookup_insert.
    repeat case_decide; subst; split; try (intros [? ?]; done); try (intros [? ?]; eauto; done).
  - assert (a ≠ p) by (intros ->; apply Ha1; rewrite fmap_app; apply elem_of_app; right; simpl; by left).
    assert (a ≠ n) by (intros ->; apply Ha2; simpl; by left).
    assert (p ≠ n).
    { intros ->. eapply Hdisj; [|simpl; by left]. rewrite fmap_app. apply elem_of_app. right. simpl. by left. }
    assert (s0 ≠ a) by (intros ->; done).
    rewrite Hs. simpl. rewrite bool_decide_false by congruence. simpl.
    rw load_line_Some. rewrite Hna. simpl. rw store_line_Some.
    rw load_line_Some. rewrite Hpa. simpl. rw store_line_Some.
    rw load_line_Some. rewrite Hna. simpl.
    erewrite destroy_line_spec; [|look|simpl; exact Hch]. simpl.
    intros [= <- <-]. simpl. split; [done|]. intros x. rewrite lookup_delete, !lookup_insert.
    repeat case_decide; subst; split; try (intros [? ?]; done); try (intros [? ?]; eauto; done).
Qed.

(** X12: what deletion frees.  Deleting a line of a well-formed buffer
    frees its node and every character node of its chain; no other node is
    freed and none is allocated, and streams, files and pending input are
    left alone. *)
Theorem delete_line_frees st l1 a cs l2 :
  wf st (l1 ++ (a, cs) :: l2) →
  ∃ r st', delete_line (Ptr a) st = Ret (r, st') ∧
    (∀ x, mem_character st' !! x
          = if decide (x ∈ cs.*1) then None else mem_character st !! x) ∧
    (∀ x, is_Some (mem_line st' !! x) ↔ x ≠ a ∧ is_Some (mem_line st !! x)) ∧
    brk st' = brk st ∧ stdin st' = stdin st ∧ stdout st' = stdout st ∧ fs st' = fs st.
Proof.
  intros Hwf.
  destruct (delete_line_spec _ _ _ _ _ Hwf) as (st' & Hrun & _ & Est & _).
  destruct (delete_line_memory _ _ _ _ _ _ _ Hwf Hrun) as [Hc Hl].
  exists (new_current l1 l2), st'. split_and!; try done; try (rewrite Est; done).
  intros x. rewrite Hc. apply lookup_free_cells.
Qed.

Lemma delete_line_frees_witness :
  ∃ r st', delete_line (Ptr 4) abc_second = Ret (r, st') ∧
    (∀ x, mem_character st' !! x
          = if decide (x ∈ [(5%positive, "b"%char); (6%positive, " "%char)].*1) then None
            else mem_character abc_second !! x) ∧
    (∀ x, is_Some (mem_line st' !! x) ↔ x ≠ 4%positive ∧ is_Some (mem_line abc_second !! x)) ∧
    brk st' = brk abc_second ∧ stdin st' = stdin abc_second ∧
    stdout st' = stdout abc_second ∧ fs st' = fs abc_second.
Proof.
  apply (delete_line_frees abc_second [(1, [(2, "a"); (3, " ")])]%positive%char 4
           [(5, "b"); (6, " ")]%positive%char [(7, [(8, "c"); (9, " ")])]%positive%char).
  apply wf_check_sound. vm_compute. reflexivity.
Defined.

Lemma new_current_NULL l1 l2 : new_current l1 l2 = NULL → l1 = [] ∧ l2 = [].
Proof.
  unfold new_current. destruct (last l1) as [[p pc]|] eqn:Hlast; [done|].
  apply last_None in Hlast as ->. by destruct l2 as [|[n nc] l2].
Qed.

Lemma run_instructions_d fname s st :
  run_instructions fname ("d"%char :: s) st
  = ('(ret, st') ← delete_line (lines st) st; run_instructions fname s (set_lines ret st')).
Proof. done. Qed.

Lemma delete_every_line_aux fname n : ∀ st ls,
  length ls = n → wf st ls → cursor_at st ls → (lines st = NULL → ls = []) →
  ∃ st', run_instructions fname (replicate n "d"%char) st = Ret (0, st') ∧
    wf st' [] ∧ lines st' = NULL ∧
    (∀ x, mem_character st' !! x
          = if decide (x ∈ cell_addrs ls) then None else mem_character st !! x) ∧
    (∀ x, is_Some (mem_line st' !! x) ↔ (x ∉ ls.*1) ∧ is_Some (mem_line st !! x)).
Proof.
  induction n as [|n IH]; intros st ls Hlen Hwf Hcur Hfull.
  - destruct ls; [|done]. exists st. split_and!; [done|done| | |].
    + by destruct Hcur as [?|(a & _ & ?%elem_of_nil)].
    + intros x. rewrite decide_False; [done|]. apply not_elem_of_nil.
    + intros x. split; [intros ?; split; [apply not_elem_of_nil|done]|by intros [_ ?]].
  - destruct Hcur as [Hcur|(a & Hcur & Ha)].
    { rewrite (Hfull Hcur) in Hlen. done. }
    destruct (NoDup_fst_split ls a (wf_lines_NoDup _ _ Hwf) Ha) as (l1 & cs & l2 & -> & _).
    destruct (delete_line_spec _ _ _ _ _ Hwf) as (st1 & Hrun & Hwf1 & Est1 & _).
    destruct (delete_line_memory _ _ _ _ _ _ _ Hwf Hrun) as [Hc Hl].
    cbn [replicate]. rewrite run_instructions_d, Hcur, Hrun. cbn [mbind res_bind].
    destruct (IH (set_lines (new_current l1 l2) st1) (l1 ++ l2)) as
      (st' & Hrun' & Hwf' & Hcur' & Hc' & Hl').
    + rewrite length_app in Hlen |- *. simpl in Hlen. lia.
    + eapply wf_env; [exact Hwf1|done..].
    + apply new_current_cursor.
    + simpl. intros Hn. apply new_current_NULL in Hn as [-> ->]. done.
    + exists st'. split_and!; try done.
      * intros x. rewrite Hc'. simpl. rewrite Hc, lookup_free_cells.
        rewrite !cell_addrs_app, cell_addrs_cons.
        repeat case_decide; try done; exfalso;
          repeat match goal with
          | H : _ ∈ _ ++ _ |- _ => apply elem_of_app in H as [?|?]
          | H : _ ∉ _ ++ _ |- _ => apply not_elem_of_app in H as [? ?]
          end; done.
      * intros x. rewrite Hl'. simpl. rewrite Hl. rewrite !fmap_app, fmap_cons. simpl.
        rewrite !elem_of_app, elem_of_cons. tauto.
Qed.

(** X13: deleting everything.  From a well-formed buffer with the cursor
    on one of its lines, as many [d] as the buffer has lines empty it,
    wherever the cursor was: [start] and the cursor end up [NULL], every
    line node and every character node of the buffer is freed, and no
    other node is freed or allocated. *)
Theorem delete_every_line fname st ls :
  wf st ls → cursor_at st ls → (lines st = NULL → ls = []) →
  ∃ st', run_instructions fname (replicate (length ls) "d"%char) st = Ret (0, st') ∧
    wf st' [] ∧ start st' = NULL ∧ lines st' = NULL ∧
    (∀ x, mem_character st' !! x
          = if decide (x ∈ cell_addrs ls) then None else mem_character st !! x) ∧
    (∀ x, is_Some (mem_line st' !! x) ↔ (x ∉ ls.*1) ∧ is_Some (mem_line st !! x)).
Proof.
  intros Hwf Hcur Hfull.
  destruct (delete_every_line_aux fname (length ls) st ls eq_refl Hwf Hcur Hfull) as
    (st' & Hrun & Hwf' & Hcur' & Hc & Hl).
  exists st'. split_and!; try done. by rewrite (wf_start_head _ _ Hwf').
Qed.

Lemma delete_every_line_witness :
  ∃ st', run_instructions "f" (replicate (length abc_lines) "d"%char) abc_second = Ret (0, st') ∧
    wf st' [] ∧ start st' = NULL ∧ lines st' = NULL ∧
    (∀ x, mem_character st' !! x
          = if decide (x ∈ cell_addrs abc_lines) then None else mem_character abc_second !! x) ∧
    (∀ x, is_Some (mem_line st' !! x) ↔ (x ∉ abc_lines.*1) ∧ is_Some (mem_line abc_second !! x)).
Proof.
  apply (delete_every_line "f" abc_second abc_lines).
  - apply wf_check_sound. vm_compute. reflexivity.
  - right. exists 4%positive. split; [reflexivity|]. vm_compute. right. left.
  - intros H. vm_compute in H. discriminate.
Defined.

(** ** What the editor keeps *)

Lemma holds_same_heap st st' ls : holds st ls → same_heap st st' → holds st' ls.
Proof.
  intros (Hwf & Hcur & Hfull) Hsame. split_and!.
  - by eapply wf_same_heap.
  - by eapply cursor_at_same_heap.
  - destruct Hsame as (_ & _ & _ & -> & _). done.
Qed.

Lemma holds_cursor_line st ls a :
  holds st ls → lines st = Ptr a → ∃ l1 cs l2, ls = l1 ++ (a, cs) :: l2 ∧ a ∉ l1.*1.
Proof.
  intros (Hwf & Hcur & _) Ha. destruct Hcur as [Hc|(a' & Hc & Hin)]; [congruence|].
  assert (a' = a) as -> by congruence.
  by apply NoDup_fst_split; [apply (wf_lines_NoDup _ _ Hwf)|].
Qed.

Lemma holds_cursor_defined st ls : holds st ls → lines st ≠ Undef.
Proof. intros (_ & [Hc|(a & Hc & _)] & _); congruence. Qed.

Lemma print_line_keeps st ls :
  holds st ls →
  ∃ st', print_line (lines st) st = Ret st' ∧ holds st' ls ∧
         stdin st' = stdin st ∧ fs st' = fs st.
Proof.
  intros Hh. destruct (lines st) as [| |a] eqn:Hcur.
  - by destruct (holds_cursor_defined _ _ Hh).
  - unfold print_line. cbn [is_null mbind res_bind].
    rewrite (fputs_fput_state _ Stdout) by done. eexists. split; [done|].
    split_and!; [|done..]. eapply holds_same_heap; [exact Hh|apply fput_state_same_heap].
  - destruct (holds_cursor_line _ _ _ Hh Hcur) as (l1 & cs & l2 & -> & _).
    erewrite print_line_spec by apply Hh. eexists. split; [done|].
    split_and!; [|done..]. eapply holds_same_heap; [exact Hh|apply fput_state_same_heap].
Qed.

Lemma lines_to_handle_keeps st ls :
  holds st ls →
  ∃ st', lines_to_handle Stdout (start st) st = Ret st' ∧ holds st' ls ∧
         stdin st' = stdin st ∧ fs st' = fs st.
Proof.
  intros Hh. erewrite lines_to_handle_spec; [|apply Hh|done].
  eexists. split; [done|].
  split_and!; [|done..]. eapply holds_same_heap; [exact Hh|apply fput_state_same_heap].
Qed.

Lemma usage_keeps st ls :
  holds st ls →
  ∃ st', usage st = Ret st' ∧ holds st' ls ∧ stdin st' = stdin st ∧ fs st' = fs st.
Proof.
  intros Hh. unfold usage. rewrite fputs_fput_state by done.
  eexists. split; [done|].
  split_and!; [|done..]. eapply holds_same_heap; [exact Hh|apply fput_state_same_heap].
Qed.

Lemma fputs_Stdout_keeps s st ls :
  holds st ls →
  ∃ st', fputs s Stdout st = Ret st' ∧ holds st' ls ∧ stdin st' = stdin st ∧ fs st' = fs st.
Proof.
  intros Hh. rewrite fputs_fput_state by done.
  eexists. split; [done|].
  split_and!; [|done..]. eapply holds_same_heap; [exact Hh|apply fput_state_same_heap].
Qed.

Lemma write_lines_keeps fname st ls :
  holds st ls →
  match write_lines fname (start st) st with
  | Ret st' => holds st' ls ∧ stdin st' = stdin st
  | Exit s _ => s = EXIT_FAILURE
  | _ => False
  end.
Proof.
  intros Hh. rewrite (write_lines_spec fname st ls) by apply Hh.
  destruct (fs st !! fname) as [[r [] old|]|]; try done;
    (split; [|done]); eapply holds_same_heap; [exact Hh|done|exact Hh|done].
Qed.

Lemma delete_line_keeps st ls :
  holds st ls →
  ∃ ret st' ls', delete_line (lines st) st = Ret (ret, st') ∧ holds (set_lines ret st') ls' ∧
                 stdin st' = stdin st ∧ fs st' = fs st.
Proof.
  intros Hh. destruct (lines st) as [| |a] eqn:Hcur.
  - by destruct (holds_cursor_defined _ _ Hh).
  - exists NULL, st, ls. split; [done|]. split_and!; [|done..].
    rewrite <- Hcur. by rewrite (set_lines_id st (lines st)).
  - destruct (holds_cursor_line _ _ _ Hh Hcur) as (l1 & cs & l2 & -> & _).
    destruct Hh as (Hwf & _ & _).
    destruct (delete_line_spec _ _ _ _ _ Hwf) as (st' & Hrun & Hwf' & Est & _).
    exists (new_current l1 l2), st', (l1 ++ l2). split; [done|].
    split; [|by rewrite Est]. split_and!.
    + eapply wf_env; [exact Hwf'|done..].
    + apply new_current_cursor.
    + simpl. intros Hn. apply new_current_NULL in Hn as [-> ->]. done.
Qed.

Lemma holds_advance st ls a nd n :
  holds st ls → lines st = Ptr a → mem_line st !! a = Some nd → next nd = Ptr n →
  holds (set_lines (Ptr n) st) ls.
Proof.
  intros Hh Ha Hnd Hn.
  destruct (holds_cursor_line _ _ _ Hh Ha) as (l1 & cs & l2 & -> & _).
  destruct Hh as (Hwf & _ & _).
  destruct (wf_cursor_node _ _ _ _ _ Hwf) as (nd' & Hnd' & _ & Hnext & _). simplify_eq.
  split_and!; [eapply wf_env; [exact Hwf|done..]| |done].
  right. exists n. split; [done|]. rewrite Hn in Hnext.
  destruct l2 as [|[n' ncs] l2]; simpl in Hnext; simplify_eq.
  rewrite fmap_app, !fmap_cons. apply elem_of_app. right. right. by left.
Qed.

Lemma holds_retreat st ls a nd p :
  holds st ls → lines st = Ptr a → mem_line st !! a = Some nd → prev nd = Ptr p →
  holds (set_lines (Ptr p) st) ls.
Proof.
  intros Hh Ha Hnd Hp.
  destruct (holds_cursor_line _ _ _ Hh Ha) as (l1 & cs & l2 & -> & _).
  destruct Hh as (Hwf & _ & _).
  destruct (wf_cursor_node _ _ _ _ _ Hwf) as (nd' & Hnd' & Hprev & _). simplify_eq.
  split_and!; [eapply wf_env; [exact Hwf|done..]| |done].
  right. exists p. split; [done|]. rewrite Hp in Hprev.
  destruct (last l1) as [[p' pcs]|] eqn:Hlast; simpl in Hprev; simplify_eq.
  apply last_Some in Hlast as [l' ->].
  rewrite !fmap_app. apply elem_of_app. left. apply elem_of_app. right. simpl. by left.
Qed.

Lemma holds_env st st' ls :
  holds st ls → mem_line st' = mem_line st → mem_character st' = mem_character st →
  start st' = start st → brk st' = brk st → lines st' = lines st → holds st' ls.
Proof.
  intros (Hwf & Hcur & Hfull) El Ec Es Eb Ecur. split_and!.
  - by eapply wf_env.
  - unfold cursor_at. by rewrite Ecur.
  - by rewrite Ecur.
Qed.

Lemma holds_grow st st' ls :
  holds st ls → mem_line st' = mem_line st → mem_character st' = mem_character st →
  start st' = start st → (brk st ≤ brk st')%positive → lines st' = lines st → holds st' ls.
Proof.
  intros (Hwf & Hcur & Hfull) El Ec Es Eb Ecur. split_and!.
  - by eapply wf_grow.
  - unfold cursor_at. by rewrite Ecur.
  - by rewrite Ecur.
Qed.

(** The four ways an insertion session goes.  SIGINT by the first look at
    the flag: it returns at once.  No line left on stdin: it ends the
    process.  SIGINT by the poll after the first read: it returns, and
    the line read is gone.  Otherwise the line read is committed, and
    [charray_to_line] leaves its block. *)
Lemma insert_line_cases st :
  (∀ a, is_Some (mem_character st !! a) → (a < brk st)%positive) →
  (∀ sig, sigint st = true :: sig →
     insert_line st = Ret (set_stop_insertion 1 (set_sigint sig st))) ∧
  (head (sigint st) ≠ Some true → stdin st = [] →
     insert_line st
     = Exit EXIT_FAILURE
         (ALLOC_LL_line (set_sigint (drop 1 (sigint st)) (set_stop_insertion 0 st))).2) ∧
  (∀ sig pending input, sigint st = false :: true :: sig → stdin st = pending :: input →
     insert_line st
     = Ret (set_stop_insertion 1
              (set_sigint sig (set_stdin input (ALLOC_LL_line (set_stop_insertion 0 st)).2)))) ∧
  (∀ pending input, sigint st !! 0%nat ≠ Some true → sigint st !! 1%nat ≠ Some true →
     stdin st = pending :: input → insert_line st = Fault).
Proof.
  intros Hbelow. unfold insert_line. split_and!.
  - intros sig Hsig. by rewrite (insert_line_loop_cancel_at_guard _ _ sig).
  - intros Hsig Hin. cbn [stdin set_stop_insertion]. rewrite Hin.
    by rewrite insert_line_loop_end_of_input.
  - intros sig pending input Hsig Hin. cbn [stdin set_stop_insertion]. rewrite Hin.
    by rewrite (insert_line_loop_cancel_at_poll _ _ _ sig).
  - intros pending input H0 H1 Hin. cbn [stdin set_stop_insertion]. rewrite Hin.
    by apply insert_line_loop_commit.
Qed.

Lemma insert_line_keeps st ls :
  holds st ls →
  match insert_line st with
  | Ret st' => holds st' ls ∧ stdin st' `suffix_of` stdin st ∧ fs st' = fs st
  | Exit s st' => s = EXIT_FAILURE ∧ fs st' = fs st
  | Fault => True
  | Diverge => False
  end.
Proof.
  intros Hh.
  destruct (insert_line_cases st) as (Hguard & Heof & Hpoll & Hcommit); [apply Hh|].
  destruct (sigint st) as [|[] sig] eqn:Esig.
  - destruct (stdin st) as [|pending input] eqn:Ein.
    + rewrite Heof by done. done.
    + rewrite (Hcommit pending input) by done. done.
  - rewrite (Hguard sig eq_refl). split_and!; [|done..].
    eapply holds_env; [exact Hh|done..].
  - destruct (stdin st) as [|pending input] eqn:Ein.
    + rewrite Heof by done. done.
    + destruct sig as [|[] sig].
      * rewrite (Hcommit pending input) by done. done.
      * rewrite (Hpoll sig pending input eq_refl eq_refl). split_and!.
        -- eapply holds_grow; [exact Hh|done..|simpl; lia|done].
        -- simpl. by apply suffix_cons_r.
        -- done.
      * rewrite (Hcommit pending input) by done. done.
Qed.

Lemma editor_inv_cursor st a :
  editor_inv st → lines st = Ptr a →
  ∃ nd, mem_line st !! a = Some nd ∧ next nd ≠ Undef ∧ prev nd ≠ Undef.
Proof.
  intros (ls & Hwf & Hcur & _) Ha. apply inv_cursor_allocated; [|done]. by exists ls.
Qed.

(** Every command line that returns keeps the editor's invariant and has
    taken its input from the front of stdin.  A command line ends the
    process only with [EXIT_FAILURE], and only in [i] or [w]; it leaves
    the files alone unless it holds a [w]; it leaves allocated memory only
    in [i]; and no traversal runs without end. *)
Lemma run_instructions_keeps fname s : ∀ st,
  editor_inv st →
  match run_instructions fname s st with
  | Ret (r, st') =>
      editor_inv st' ∧ stdin st' `suffix_of` stdin st ∧ (("w"%char ∉ s) → fs st' = fs st)
  | Exit status st' =>
      status = EXIT_FAILURE ∧ ("i"%char ∈ s ∨ "w"%char ∈ s) ∧ (("w"%char ∉ s) → fs st' = fs st)
  | Fault => "i"%char ∈ s
  | Diverge => False
  end.
Proof.
  induction s as [|x s IH]; intros st Hinv; [done|].
  assert (Hstep : ∀ st1, editor_inv st1 → stdin st1 `suffix_of` stdin st →
            (x ≠ "w"%char → fs st1 = fs st) →
            match run_instructions fname s st1 with
            | Ret (r, st') =>
                editor_inv st' ∧ stdin st' `suffix_of` stdin st ∧
                (("w"%char ∉ x :: s) → fs st' = fs st)
            | Exit status st' =>
                status = EXIT_FAILURE ∧ ("i"%char ∈ x :: s ∨ "w"%char ∈ x :: s) ∧
                (("w"%char ∉ x :: s) → fs st' = fs st)
            | Fault => "i"%char ∈ x :: s
            | Diverge => False
            end).
  { intros st1 Hinv1 Hsuf Hfs. pose proof (IH st1 Hinv1) as Hrec.
    destruct (run_instructions fname s st1) as [[r st']|status st'| |]; try done.
    - destruct Hrec as (Hinv' & Hsuf' & Hfs'). split_and!; [done|by etrans|].
      intros Hw. apply not_elem_of_cons in Hw as [Hx Hw]. rewrite Hfs' by done.
      apply Hfs. congruence.
    - destruct Hrec as (Hst & Hiw & Hfs'). split_and!; [done| |].
      + destruct Hiw; [left|right]; by right.
      + intros Hw. apply not_elem_of_cons in Hw as [Hx Hw]. rewrite Hfs' by done.
        apply Hfs. congruence.
    - by right. }
  cbn [run_instructions].
  destruct (Ascii.eqb x nl || Ascii.eqb x NUL); [done|].
  destruct (Ascii.eqb_spec x "n") as [->|_].
  { destruct (lines st) as [| |a] eqn:Hcur.
    - destruct Hinv as (ls & Hh). by destruct (holds_cursor_defined _ _ Hh).
    - done.
    - destruct (editor_inv_cursor _ _ Hinv Hcur) as (nd & Hnd & Hnx & _).
      cbn [is_null mbind res_bind]. erewrite load_line_Some by done. cbn [mbind res_bind].
      destruct (next nd) as [| |n] eqn:Hn; [done|done|]. cbn [is_null mbind res_bind].
      apply Hstep; [|done..]. destruct Hinv as (ls & Hh). exists ls.
      eapply holds_advance; eauto. }
  destruct (Ascii.eqb_spec x "b") as [->|_].
  { destruct (lines st) as [| |a] eqn:Hcur.
    - destruct Hinv as (ls & Hh). by destruct (holds_cursor_defined _ _ Hh).
    - done.
    - destruct (editor_inv_cursor _ _ Hinv Hcur) as (nd & Hnd & _ & Hpv).
      cbn [is_null mbind res_bind]. erewrite load_line_Some by done. cbn [mbind res_bind].
      destruct (prev nd) as [| |p] eqn:Hp; [done|done|]. cbn [is_null mbind res_bind].
      apply Hstep; [|done..]. destruct Hinv as (ls & Hh). exists ls.
      eapply holds_retreat; eauto. }
  destruct Hinv as (ls & Hh).
  destruct (Ascii.eqb_spec x "p") as [->|_].
  { destruct (print_line_keeps _ _ Hh) as (st' & -> & Hh' & Hin' & Hfs').
    cbn [mbind res_bind]. apply Hstep; [by exists ls|by rewrite Hin'|done]. }
  destruct (Ascii.eqb_spec x "i") as [->|_].
  { pose proof (insert_line_keeps _ _ Hh) as Hins.
    destruct (insert_line st) as [st'|status st'| |]; cbn [mbind res_bind]; try done.
    - destruct Hins as (Hinv' & Hsuf & Hfs'). apply Hstep; [by exists ls|done..].
    - destruct Hins as [-> Hfs']. split_and!; [done|by left; left|done].
    - by left. }
  destruct (Ascii.eqb_spec x "l") as [->|_].
  { destruct (lines_to_handle_keeps _ _ Hh) as (st' & -> & Hh' & Hin' & Hfs').
    cbn [mbind res_bind]. apply Hstep; [by exists ls|by rewrite Hin'|done]. }
  destruct (Ascii.eqb_spec x "d") as [->|_].
  { destruct (delete_line_keeps _ _ Hh) as (ret & st' & ls' & -> & Hh' & Hin' & Hfs').
    cbn [mbind res_bind]. apply Hstep; [by exists ls'|simpl; by rewrite Hin'|done]. }
  destruct (Ascii.eqb_spec x "q") as [->|_]; [split_and!; [by exists ls|done..]|].
  destruct (Ascii.eqb_spec x "w") as [->|_].
  { pose proof (write_lines_keeps fname _ _ Hh) as Hw.
    destruct (write_lines fname (start st) st) as [st'|status st'| |];
      cbn [mbind res_bind]; try done.
    - destruct Hw as [Hh' Hin']. apply Hstep; [by exists ls|by rewrite Hin'|done].
    - split_and!; [done|by right; left|].
      intros Hnw. exfalso. apply Hnw. by left. }
  destruct (Ascii.eqb_spec x "h") as [->|_].
  { destruct (usage_keeps _ _ Hh) as (st' & -> & Hh' & Hin' & Hfs').
    cbn [mbind res_bind]. apply Hstep; [by exists ls|by rewrite Hin'|done]. }
  apply Hstep; [by exists ls|done..].
Qed.

Lemma run_instructions_quit fname s st r st' :
  run_instructions fname s st = Ret (r, st') →
  (r = 0 ∨ r = -1 ∨ r = -2 ∨ r = -3) ∧ (r = -3 → "q"%char ∈ s).
Proof.
  intros Hrun. destruct (decide (r = 0)) as [->|Hr]; [split; [by left|done]|].
  destruct (run_instructions_signal fname s st r st' Hrun Hr) as
    (pre & x & post & -> & _ & _ & [(-> & -> & _)|[(-> & -> & _)|(-> & ->)]]).
  - split; [by right; left|done].
  - split; [by right; right; left|done].
  - split; [by right; right; right|]. intros _. apply elem_of_app. right. by left.
Qed.

(** One turn of main's loop. *)
Lemma main_turn_keeps fname st :
  editor_inv st →
  match main_turn fname st with
  | Ret (nx, st') =>
      editor_inv st' ∧ (length (stdin st') < length (stdin st))%nat ∧
      (∀ input later, stdin st = input :: later → ("w"%char ∉ input) → fs st' = fs st)
  | Exit status st' =>
      status = EXIT_FAILURE ∧
      (∀ input later, stdin st = input :: later → ("w"%char ∉ input) → fs st' = fs st)
  | Fault => ∃ input later, stdin st = input :: later ∧ "i"%char ∈ input
  | Diverge => False
  end.
Proof.
  intros (ls & Hh). unfold main_turn.
  destruct (fputs_Stdout_keeps PROMPT st ls Hh) as (st1 & -> & Hh1 & Hin1 & Hfs1).
  cbn [mbind res_bind]. rewrite Hin1.
  destruct (stdin st) as [|input later] eqn:Hin; [done|].
  assert (Hinv2 : editor_inv (set_stdin later st1)).
  { exists ls. eapply holds_env; [exact Hh1|done..]. }
  pose proof (run_instructions_keeps fname input _ Hinv2) as Hrun.
  destruct (run_instructions fname input (set_stdin later st1)) as [[r st2]|status st2| |] eqn:Erun;
    cbn [mbind res_bind]; try done.
  - destruct Hrun as ((ls2 & Hh2) & Hsuf & Hfs2). simpl in Hsuf, Hfs2.
    destruct (run_instructions_quit _ _ _ _ _ Erun) as [Hr _].
    assert (Hlen : (length (stdin st2) < length (input :: later))%nat).
    { apply suffix_length in Hsuf. simpl. lia. }
    assert (Hfs : ∀ input0 later0, input :: later = input0 :: later0 →
                    ("w"%char ∉ input0) → fs st2 = fs st).
    { intros ? ? [= <- <-] Hw. rewrite Hfs2 by done. done. }
    unfold main_switch.
    destruct Hr as [->|[->|[->| ->]]]; simpl.
    + split_and!; try done. by exists ls2.
    + split_and!; try done. exists ls2. eapply holds_env; [exact Hh2|done..].
    + split_and!; try done. exists ls2. eapply holds_env; [exact Hh2|done..].
    + split_and!; try done. by exists ls2.
  - destruct Hrun as (-> & _ & Hfs2). split; [done|].
    intros ? ? [= <- <-] Hw. rewrite Hfs2 by done. done.
  - eauto.
Qed.

(** X15: the editor's invariant.  From a state in which the buffer is well
    formed and the cursor is on one of its lines, and is empty only when
    the buffer has no line, a command line that returns leaves such a
    state again, in which the cursor invariant of the data model holds,
    and it has taken its input from the front of stdin.  A command line
    ends the process only with [EXIT_FAILURE], and only if it holds an [i]
    or a [w].  It runs into undefined behaviour only if it holds an [i],
    and none of its traversals runs without end. *)
Theorem editor_invariant_kept fname s st :
  editor_inv st →
  match run_instructions fname s st with
  | Ret (r, st') => editor_inv st' ∧ cursor_inv st' ∧ stdin st' `suffix_of` stdin st
  | Exit status _ => status = EXIT_FAILURE ∧ ("i"%char ∈ s ∨ "w"%char ∈ s)
  | Fault => "i"%char ∈ s
  | Diverge => False
  end.
Proof.
  intros Hinv. pose proof (run_instructions_keeps fname s st Hinv) as Hrun.
  destruct (run_instructions fname s st) as [[r st']|status st'| |]; try done.
  - destruct Hrun as (Hinv' & Hsuf & _). split_and!; [done| |done].
    apply inv_cursor_inv. destruct Hinv' as (ls & Hwf & Hcur & _). by exists ls.
  - by destruct Hrun as (? & ? & _).
Qed.

Lemma editor_invariant_kept_witness :
  match run_instructions "f" (text "nzdpblh") abc_loaded with
  | Ret (r, st') => editor_inv st' ∧ cursor_inv st' ∧ stdin st' `suffix_of` stdin abc_loaded
  | Exit status _ => status = EXIT_FAILURE ∧
                     ("i"%char ∈ text "nzdpblh" ∨ "w"%char ∈ text "nzdpblh")
  | Fault => "i"%char ∈ text "nzdpblh"
  | Diverge => False
  end.
Proof.
  apply (editor_invariant_kept "f" (text "nzdpblh") abc_loaded).
  exists abc_lines. split_and!.
  - apply wf_check_sound. vm_compute. reflexivity.
  - right. exists 1%positive. split; [reflexivity|]. vm_compute. left.
  - intros H. vm_compute in H. discriminate.
Defined.

(** X17: only [w] writes.  A turn of main's loop whose command line holds
    no [w] leaves every file as it was, whether the turn returns or ends
    the process; the turn runs into undefined behaviour only if its command
    line holds an [i]. *)
Theorem files_change_only_by_w fname st input later :
  editor_inv st → stdin st = input :: later → ("w"%char ∉ input) →
  match main_turn fname st with
  | Ret (_, st') => fs st' = fs st
  | Exit status st' => status = EXIT_FAILURE ∧ fs st' = fs st
  | Fault => "i"%char ∈ input
  | Diverge => False
  end.
Proof.
  intros Hinv Hin Hw. pose proof (main_turn_keeps fname st Hinv) as Hturn.
  destruct (main_turn fname st) as [[nx st']|status st'| |]; try done.
  - destruct Hturn as (_ & _ & Hfs). by eapply Hfs.
  - destruct Hturn as (-> & Hfs). split; [done|]. by eapply Hfs.
  - destruct Hturn as (input' & later' & Hin' & Hi). congruence.
Qed.

Lemma files_change_only_by_w_witness :
  match main_turn "f" (set_stdin [text "npd" ++ [nl]] abc_loaded) with
  | Ret (_, st') => fs st' = fs (set_stdin [text "npd" ++ [nl]] abc_loaded)
  | Exit status st' =>
      status = EXIT_FAILURE ∧ fs st' = fs (set_stdin [text "npd" ++ [nl]] abc_loaded)
  | Fault => "i"%char ∈ text "npd" ++ [nl]
  | Diverge => False
  end.
Proof.
  apply (files_change_only_by_w "f" (set_stdin [text "npd" ++ [nl]] abc_loaded)
           (text "npd" ++ [nl]) []).
  - exists abc_lines. split_and!.
    + apply wf_check_sound. vm_compute. reflexivity.
    + right. exists 1%positive. split; [reflexivity|]. vm_compute. left.
    + intros H. vm_compute in H. discriminate.
  - reflexivity.
  - intros Hin. repeat (apply elem_of_cons in Hin as [Hin|Hin]; [discriminate|]).
    by apply elem_of_nil in Hin.
Defined.

(** ** Insertion sessions *)



(** X8: a cancelled session leaks.  The block [insert_line] allocates for
    the new line before it reads is neither linked nor freed when the
    session is cancelled at the poll after the read: on return it is
    allocated, its one member indeterminate, and it is not a line of the
    buffer, so that [destroy_lines] does not free it either. *)
Theorem insert_line_cancel_leaks st ls pending input sig :
  wf st ls → sigint st = false :: true :: sig → stdin st = pending :: input →
  ∃ st', insert_line st = Ret st' ∧ wf st' ls ∧
    small_line st' !! brk st = Some Undef ∧ mem_line st' !! brk st = None ∧
    (brk st ∉ ls.*1) ∧
    ∃ st'', destroy_lines (start st') st' = Ret st'' ∧
            small_line st'' !! brk st = Some Undef.
Proof.
  intros Hwf Hsig Hin.
  destruct (insert_line_cases st) as (_ & _ & Hpoll & _); [apply Hwf|].
  rewrite (Hpoll sig pending input Hsig Hin).
  match goal with |- context [Ret ?s] => set (st' := s) end.
  assert (Hwf' : wf st' ls).
  { eapply wf_grow; [exact Hwf|done..|simpl; lia]. }
  assert (Hnew : small_line st' !! brk st = Some Undef) by apply lookup_insert_eq.
  assert (Hnin : brk st ∉ ls.*1).
  { intros Hin'. pose proof (wf_line_lt _ _ _ Hwf Hin'). lia. }
  exists st'. split_and!; try done.
  - destruct (mem_line st !! brk st) eqn:E; [|done].
    pose proof (wf_line_brk _ _ Hwf (brk st) (mk_is_Some _ _ E)). lia.
  - rewrite (destroy_lines_spec st' _ Hwf'). eexists. split; [reflexivity|]. done.
Qed.

Lemma insert_line_cancel_leaks_witness :
  ∃ st', insert_line (set_sigint [false; true] (set_stdin [text "lost" ++ [nl]] abc_second))
         = Ret st' ∧ wf st' abc_lines ∧
    small_line st' !! brk (set_sigint [false; true] (set_stdin [text "lost" ++ [nl]] abc_second))
    = Some Undef ∧
    mem_line st' !! brk (set_sigint [false; true] (set_stdin [text "lost" ++ [nl]] abc_second))
    = None ∧
    (brk (set_sigint [false; true] (set_stdin [text "lost" ++ [nl]] abc_second))
       ∉ abc_lines.*1) ∧
    ∃ st'', destroy_lines (start st') st' = Ret st'' ∧
            small_line st'' !! brk (set_sigint [false; true]
                                      (set_stdin [text "lost" ++ [nl]] abc_second))
            = Some Undef.
Proof.
  apply (insert_line_cancel_leaks
           (set_sigint [false; true] (set_stdin [text "lost" ++ [nl]] abc_second))
           abc_lines (text "lost" ++ [nl]) [] []).
  - apply wf_check_sound. vm_compute. reflexivity.
  - reflexivity.
  - reflexivity.
Defined.
